(** * iscsi_logger.c: the page-packing message logger

    A shallow embedding of [src/iscsi_logger.c].  The C file keeps its whole
    state in file-scope statics and talks to the kernel through a handful of
    calls ([filp_open], [pagecache_write_begin], [pagecache_write_end],
    [kmap_atomic], ...).  Here the statics become one record, [logger]; the
    C functions become computations in a small monad that threads the record,
    collects the kernel calls they make as a list of [event]s, and can stop
    at a [BUG_ON], a NULL dereference or a mutex that is never released.
    What the kernel answers (did the open work, which status did the write
    report, what time is it) is an input of every call, the record [env]. *)

From Stdlib Require Import ZArith Lia Ascii DecimalString DecimalPos DecimalZ.
From stdpp Require Import base gmap strings list.

Local Open Scope Z_scope.

(** ** Machine integers *)

(** [size_t], [pgoff_t] and [unsigned long]: 64 bits, wrapping. *)
Definition u64 (x : Z) : Z := x mod 2 ^ 64.

(** [off_t] is [long]: 64-bit two's complement. *)
Definition s64 (x : Z) : Z := (x + 2 ^ 63) mod 2 ^ 64 - 2 ^ 63.

(** [int]: 32-bit two's complement (the kernel is built with wrapping
    signed arithmetic). *)
Definition s32 (x : Z) : Z := (x + 2 ^ 31) mod 2 ^ 32 - 2 ^ 31.

(** [uint8_t]. *)
Definition u8 (x : Z) : Z := x mod 2 ^ 8.

(** [PAGE_SHIFT] and [PAGE_SIZE] come from the kernel's <asm/page.h>, not
    from this repository; the values are those of x86 (4 KiB pages). *)
Definition PAGE_SHIFT : Z := 12.
Definition PAGE_SIZE : Z := Z.shiftl 1 PAGE_SHIFT.

(** [#define MSG_RND_UP(s) (((s)+0x3) & ~0x3)], at type [size_t]: the sum
    wraps, and [~0x3] (the [int] -4) is converted to [size_t]. *)
Definition MSG_RND_UP (s : Z) : Z := Z.land (u64 (s + 3)) (u64 (Z.lnot 3)).

(** ** printf conversions used for file names and messages *)

Definition dec (n : Z) : string := NilZero.string_of_int (Z.to_int n).

Fixpoint pad (c : ascii) (n : nat) (s : string) : string :=
  match n with
  | O => s
  | S n' => String c (pad c n' s)
  end.

Definition pad_left (c : ascii) (w : nat) (s : string) : string :=
  pad c (w - String.length s)%nat s.

(** ["%10lu"]: unsigned decimal, right-justified with blanks to width 10. *)
Definition fmt_10lu (n : Z) : string := pad_left " "%char 10 (dec (u64 n)).

(** ["%03d"]: signed decimal, zero-padded to width 3, the sign included. *)
Definition fmt_03d (n : Z) : string :=
  if n <? 0 then String "-"%char (pad_left "0"%char 2 (dec (- n)))
  else pad_left "0"%char 3 (dec n).

(** ["%ld"]. *)
Definition fmt_ld (n : Z) : string := dec n.

Definition nl : string := String (ascii_of_nat 10) EmptyString.

(** The character [c] does not occur in [s]. *)
Fixpoint lacks (c : ascii) (s : string) : bool :=
  match s with
  | EmptyString => true
  | String a s' => negb (Ascii.eqb a c) && lacks c s'
  end.

(** ** Pages, files, kernel calls *)

(** What the logger stores into a mapped page.  [struct iscsi_log_msg] and
    [ISCSI_TERMINATOR_MSG] are declared in iscsi_logger.h, which is not
    under src/, so a store is kept at the granularity the code writes it:
    the header fields of a message ([msg->size], [msg->type]) stored at an
    offset, or the terminator byte stored at an offset. *)
Inductive cell : Type :=
  | MsgHdr (size type : Z)
  | Terminator.

(** A page is the set of stores the logger made into it since
    [pagecache_write_begin] handed it out, keyed by the byte offset of the
    store.  The logger never reads a page.  A key at or beyond [PAGE_SIZE]
    is a store past the end of the page. *)
Abbreviation page := (gmap Z cell).

(** [struct file *]: an open file, known by the path it was opened on. *)
Abbreviation file := string.

(** Address returned by [kmap_atomic] for the page at index [idx] of the
    current file; never NULL. *)
Inductive kaddr : Type := Kaddr (idx : Z).

Inductive loglevel : Type := KERN_INFO | KERN_ERR.

(** The kernel calls the logger makes, in program order. *)
Inductive event : Type :=
  | MutexLock
  | MutexUnlock
  | FilpOpen (path : string) (ok : bool)
  | FilpClose (f : file)
  | WriteBegin (f : file) (pos : Z) (status : Z)
  | WriteEnd (f : file) (pos : Z) (pg : page) (status : Z)
  | KmapAtomic (idx : Z)
  | KunmapAtomic (a : kaddr)
  | Printk (lvl : loglevel) (msg : string).

(** The kernel's answers during one call of the logger's interface.  No
    interface function makes any of these calls more than once. *)
Record env : Type := Env {
  get_seconds : Z;        (* get_seconds() *)
  open_ok : bool;         (* filp_open() returned a usable file *)
  wb_status : Z;          (* pagecache_write_begin(): 0 on success *)
  wb_fsdata : option Z;   (* what write_begin leaves in fsdata *)
  we_status : Z           (* pagecache_write_end(): negative on error *)
}.

(** ** The logger's statics *)

Record logger : Type := Logger {
  locked : bool;               (* iscsi_logger_mtx is held *)
  pid : Z;
  staging_dir : string;
  buf : string;
  max_file_size : Z;           (* size_t, in pages *)
  generation : Z;              (* int *)
  log_file : option file;
  log_page : option page;
  poffset : Z;                 (* pgoff_t *)
  offset : Z;                  (* off_t *)
  paddr : option kaddr;
  fsdata : option Z;
  log_file_name : string
}.

(** The statics as the C file initialises them. *)
Definition initial : logger :=
  {| locked := false; pid := 0; staging_dir := ""; buf := "";
     max_file_size := 0; generation := 0; log_file := None;
     log_page := None; poffset := 0; offset := 0; paddr := None;
     fsdata := None; log_file_name := "" |}.

Definition set_locked (v : bool) (s : logger) : logger :=
  Logger v (pid s) (staging_dir s) (buf s) (max_file_size s) (generation s)
    (log_file s) (log_page s) (poffset s) (offset s) (paddr s) (fsdata s)
    (log_file_name s).
Definition set_pid (v : Z) (s : logger) : logger :=
  Logger (locked s) v (staging_dir s) (buf s) (max_file_size s) (generation s)
    (log_file s) (log_page s) (poffset s) (offset s) (paddr s) (fsdata s)
    (log_file_name s).
Definition set_staging_dir (v : string) (s : logger) : logger :=
  Logger (locked s) (pid s) v (buf s) (max_file_size s) (generation s)
    (log_file s) (log_page s) (poffset s) (offset s) (paddr s) (fsdata s)
    (log_file_name s).
Definition set_buf (v : string) (s : logger) : logger :=
  Logger (locked s) (pid s) (staging_dir s) v (max_file_size s) (generation s)
    (log_file s) (log_page s) (poffset s) (offset s) (paddr s) (fsdata s)
    (log_file_name s).
Definition set_max_file_size (v : Z) (s : logger) : logger :=
  Logger (locked s) (pid s) (staging_dir s) (buf s) v (generation s)
    (log_file s) (log_page s) (poffset s) (offset s) (paddr s) (fsdata s)
    (log_file_name s).
Definition set_generation (v : Z) (s : logger) : logger :=
  Logger (locked s) (pid s) (staging_dir s) (buf s) (max_file_size s) v
    (log_file s) (log_page s) (poffset s) (offset s) (paddr s) (fsdata s)
    (log_file_name s).
Definition set_log_file (v : option file) (s : logger) : logger :=
  Logger (locked s) (pid s) (staging_dir s) (buf s) (max_file_size s)
    (generation s) v (log_page s) (poffset s) (offset s) (paddr s) (fsdata s)
    (log_file_name s).
Definition set_log_page (v : option page) (s : logger) : logger :=
  Logger (locked s) (pid s) (staging_dir s) (buf s) (max_file_size s)
    (generation s) (log_file s) v (poffset s) (offset s) (paddr s) (fsdata s)
    (log_file_name s).
Definition set_poffset (v : Z) (s : logger) : logger :=
  Logger (locked s) (pid s) (staging_dir s) (buf s) (max_file_size s)
    (generation s) (log_file s) (log_page s) v (offset s) (paddr s) (fsdata s)
    (log_file_name s).
Definition set_offset (v : Z) (s : logger) : logger :=
  Logger (locked s) (pid s) (staging_dir s) (buf s) (max_file_size s)
    (generation s) (log_file s) (log_page s) (poffset s) v (paddr s) (fsdata s)
    (log_file_name s).
Definition set_paddr (v : option kaddr) (s : logger) : logger :=
  Logger (locked s) (pid s) (staging_dir s) (buf s) (max_file_size s)
    (generation s) (log_file s) (log_page s) (poffset s) (offset s) v (fsdata s)
    (log_file_name s).
Definition set_fsdata (v : option Z) (s : logger) : logger :=
  Logger (locked s) (pid s) (staging_dir s) (buf s) (max_file_size s)
    (generation s) (log_file s) (log_page s) (poffset s) (offset s) (paddr s) v
    (log_file_name s).
Definition set_log_file_name (v : string) (s : logger) : logger :=
  Logger (locked s) (pid s) (staging_dir s) (buf s) (max_file_size s)
    (generation s) (log_file s) (log_page s) (poffset s) (offset s) (paddr s)
    (fsdata s) v.

(** ** The monad of the C functions *)

Inductive fault : Type :=
  | BugOn        (* BUG_ON(cond) with cond true *)
  | NullDeref.   (* dereference of a NULL pointer *)

(** How a call ends: it returns, it takes the kernel down, or it waits
    forever on the mutex.  Each case carries the statics at that point and
    the kernel calls made so far. *)
Inductive outcome (A : Type) : Type :=
  | Ret (a : A) (s : logger) (out : list event)
  | Crash (f : fault) (s : logger) (out : list event)
  | Hang (s : logger) (out : list event).
Arguments Ret {A} a s out.
Arguments Crash {A} f s out.
Arguments Hang {A} s out.

Definition M (A : Type) : Type := logger → outcome A.

Definition after {A} (o : list event) (r : outcome A) : outcome A :=
  match r with
  | Ret a s o' => Ret a s (o ++ o')
  | Crash f s o' => Crash f s (o ++ o')
  | Hang s o' => Hang s (o ++ o')
  end.

#[global] Instance M_ret : MRet M := λ A a s, Ret a s [].
#[global] Instance M_bind : MBind M := λ A B k m s,
  match m s with
  | Ret a s' o => after o (k a s')
  | Crash f s' o => Crash f s' o
  | Hang s' o => Hang s' o
  end.

Definition get : M logger := λ s, Ret s s [].
Definition modify (f : logger → logger) : M unit := λ s, Ret tt (f s) [].
Definition emit (e : event) : M unit := λ s, Ret tt s [e].
Definition crash {A} (f : fault) : M A := λ s, Crash f s [].
Definition hang {A} : M A := λ s, Hang s [].

Definition events {A} (r : outcome A) : list event :=
  match r with
  | Ret _ _ o | Crash _ _ o | Hang _ o => o
  end.

Definition final {A} (r : outcome A) : logger :=
  match r with
  | Ret _ s _ | Crash _ s _ | Hang s _ => s
  end.

(** ** Kernel calls *)

Definition mutex_lock : M unit :=
  s ← get;
  if locked s then hang
  else emit MutexLock;; modify (set_locked true).

Definition mutex_unlock : M unit :=
  emit MutexUnlock;; modify (set_locked false).

Definition printk (lvl : loglevel) (msg : string) : M unit :=
  emit (Printk lvl msg).

(** [filp_open(buf, O_RDWR|O_CREAT, 0)] followed by the [IS_ERR_OR_NULL]
    test: [None] is the NULL the code stores on failure. *)
Definition filp_open (e : env) (path : string) : M (option file) :=
  emit (FilpOpen path (open_ok e));;
  mret (if open_ok e then Some path else None).

Definition filp_close (f : file) : M unit := emit (FilpClose f).

(** [poffset << PAGE_SHIFT], passed as a [loff_t]. *)
Definition page_pos (p : Z) : Z := s64 (Z.shiftl p PAGE_SHIFT).

(** [pagecache_write_begin(log_file, mapping, poffset << PAGE_SHIFT,
    PAGE_SIZE, AOP_FLAG_UNINTERRUPTIBLE, &log_page, &fsdata)]: on success
    (status 0) the kernel stores a page, in which the logger has stored
    nothing yet, and its private data; on failure it stores neither. *)
Definition pagecache_write_begin (e : env) (f : file) : M Z :=
  s ← get;
  emit (WriteBegin f (page_pos (poffset s)) (wb_status e));;
  (if wb_status e =? 0
   then modify (set_log_page (Some ∅));; modify (set_fsdata (wb_fsdata e))
   else mret tt);;
  mret (wb_status e).

(** [pagecache_write_end(log_file, mapping, poffset << PAGE_SHIFT, PAGE_SIZE,
    PAGE_SIZE, log_page, fsdata)]. *)
Definition pagecache_write_end (e : env) (f : file) (pg : page) : M Z :=
  s ← get;
  emit (WriteEnd f (page_pos (poffset s)) pg (we_status e));;
  mret (we_status e).

(** [kmap_atomic(log_page, KM_USER0)]. *)
Definition kmap_atomic : M kaddr :=
  s ← get;
  emit (KmapAtomic (poffset s));;
  mret (Kaddr (poffset s)).

Definition kunmap_atomic (a : kaddr) : M unit := emit (KunmapAtomic a).

(** A store through the mapping of [log_page], at [paddr + off]. *)
Definition store (off : Z) (c : cell) : M unit :=
  modify (λ s, set_log_page (insert off c <$> log_page s) s).

(** [log_file->f_mapping]. *)
Definition f_mapping : M file :=
  s ← get;
  match log_file s with
  | Some f => mret f
  | None => crash NullDeref
  end.

(** ** The C functions *)

Definition put_log_page (e : env) : M unit :=
  s ← get;
  match log_page s with
  | None => mret tt
  | Some _ =>
      (* terminate page *)
      (if u64 (offset s) <? PAGE_SIZE then
         a ← kmap_atomic;
         modify (set_paddr (Some a));;
         store (offset s) Terminator;;
         kunmap_atomic a
       else mret tt);;
      f ← f_mapping;
      s1 ← get;
      status ← pagecache_write_end e f (default ∅ (log_page s1));
      (if status <? 0 then
         printk KERN_ERR
           ("put_log_page: write_end() failed with " +:+ fmt_ld status +:+ nl)
       else mret tt);;
      modify (set_log_page None);;
      modify (set_fsdata None)
  end.

Definition iscsi_logger_roll (e : env) : M unit :=
  s ← get;
  match log_file s with
  | Some f =>
      put_log_page e;;
      filp_close f;;
      modify (set_offset 0);;
      modify (set_poffset 0);;
      modify (set_log_file None)
  | None => mret tt
  end.

(** Lines 82 to 91 of [fetch_log_file]: name the next file and try to
    create it.  The bounds of [log_file_name] and [buf] ([MAX_FILE_NAME],
    [MAX_DIR_PATH], from the missing header) are not modelled. *)
Definition fetch_log_file_create (e : env) : M unit :=
  s ← get;
  let name := fmt_10lu (get_seconds e) +:+ "." +:+
              fmt_03d (Z.rem (generation s) 1000) in
  modify (set_generation (s32 (generation s + 1)));;
  modify (set_log_file_name name);;
  let path := staging_dir s +:+ "/" +:+ name in
  modify (set_buf path);;
  f ← filp_open e path;
  modify (set_log_file f);;
  match f with
  | Some _ =>
      printk KERN_INFO ("fetch_log_file: created new log file " +:+ path +:+ nl)
  | None =>
      printk KERN_INFO
        ("fetch_log_file: failed to create log file " +:+ path +:+ nl)
  end.

Definition fetch_log_file (e : env) : M unit :=
  s ← get;
  match log_file s with
  | Some _ =>
      if poffset s <? max_file_size s then mret tt
      else iscsi_logger_roll e;; fetch_log_file_create e
  | None => fetch_log_file_create e
  end.

(** Lines 143 to 154 of [fetch_log_page]: get the file, then the page. *)
Definition fetch_log_page_next (e : env) : M unit :=
  fetch_log_file e;;
  s ← get;
  match log_file s with
  | None => mret tt
  | Some f =>
      status ← pagecache_write_begin e f;
      if status =? 0 then mret tt
      else printk KERN_ERR
             ("fetch_log_page: write_begin() failed with " +:+
              fmt_ld status +:+ nl)
  end.

Definition fetch_log_page (e : env) (size : Z) : M unit :=
  s ← get;
  match log_page s with
  | Some _ =>
      (* does record fit into current page? *)
      if u64 (offset s + size) <=? PAGE_SIZE then mret tt
      else
        put_log_page e;;
        modify (set_offset 0);;
        modify (λ s, set_poffset (u64 (poffset s + 1)) s);;
        fetch_log_page_next e
  | None => fetch_log_page_next e
  end.

(** The message pointer returned to the caller is its offset in the mapped
    page; [None] is NULL. *)
Definition iscsi_logger_alloc (e : env) (size type : Z) : M (option Z) :=
  let size := MSG_RND_UP size in
  if PAGE_SIZE <? size then crash BugOn
  else
    fetch_log_page e size;;
    s ← get;
    match log_page s with
    | None => mret None
    | Some _ =>
        a ← kmap_atomic;
        modify (set_paddr (Some a));;
        let addr := offset s in
        modify (set_offset (s64 (offset s + size)));;
        store addr (MsgHdr size (u8 type));;
        mret (Some addr)
    end.

Definition iscsi_logger_commit : M unit :=
  s ← get;
  match paddr s with
  | None => crash BugOn
  | Some a => kunmap_atomic a
  end.

Definition iscsi_logger_start (e : env) : M unit :=
  mutex_lock;;
  fetch_log_file e.

Definition iscsi_logger_stop (e : env) : M unit :=
  put_log_page e;;
  mutex_unlock.

(** [msg->reg_msg.dir[MAX_DIR_PATH-1] = 0]: whatever the sender put into
    the array, the string that [strncpy] and [printk] read from it
    afterwards has at most [MAX_DIR_PATH - 1] characters.  [MAX_DIR_PATH],
    the size of [msg->reg_msg.dir] and of [staging_dir], is a macro of the
    headers that are not under src/; an array has at least one element. *)
Definition cut_dir (MAX_DIR_PATH : nat) (dir : string) : string :=
  String.substring 0 (MAX_DIR_PATH - 1) dir.

(** [nl_register_dir], after the netlink message is unpacked: [dir] is what
    [msg->reg_msg.dir] holds on entry, [max_size] is
    [msg->reg_msg.max_size].  [strncpy(staging_dir, dir, MAX_DIR_PATH)]
    copies the string that was cut, terminator included. *)
Definition nl_register_dir (MAX_DIR_PATH : nat) (dir : string)
    (nlmsg_pid max_size : Z) : M Z :=
  let dir := cut_dir MAX_DIR_PATH dir in
  mutex_lock;;
  modify (set_staging_dir dir);;
  modify (set_pid nlmsg_pid);;
  modify (set_max_file_size (u64 (Z.shiftr max_size PAGE_SHIFT)));;
  mutex_unlock;;
  s ← get;
  printk KERN_INFO
    ("nl_register_dir: max file size = " +:+ fmt_ld (s32 max_size) +:+ " (" +:+
     fmt_ld (s32 (max_file_size s)) +:+ " pages), path = " +:+ dir +:+ nl);;
  mret 0.

(** [iscsi_logger_init]; [nl_ok] tells whether [netlink_kernel_create]
    returned a socket.  [-EIO] is -5. *)
Definition iscsi_logger_init (nl_ok : bool) : M Z :=
  if nl_ok then
    modify (set_staging_dir "/dev/shm");;
    modify (set_pid 0);;
    modify (set_max_file_size 1024);;
    mret 0
  else mret (-5).

Definition iscsi_logger_exit : M unit :=
  mutex_lock;;
  s ← get;
  match log_file s with
  | Some f => filp_close f
  | None => mret tt
  end;;
  mutex_unlock.

(** ** Sequences of calls *)

Inductive call : Type :=
  | Start
  | Alloc (size type : Z)
  | Commit
  | Roll
  | Stop.

(** What a call hands back: nothing, or the message pointer of [Alloc]. *)
Inductive retval : Type :=
  | Void
  | Msg (p : option Z).

Definition exec (c : call) (e : env) : M retval :=
  match c with
  | Start => iscsi_logger_start e;; mret Void
  | Alloc size type => p ← iscsi_logger_alloc e size type; mret (Msg p)
  | Commit => iscsi_logger_commit;; mret Void
  | Roll => iscsi_logger_roll e;; mret Void
  | Stop => iscsi_logger_stop e;; mret Void
  end.

Fixpoint run (cs : list (call * env)) : M (list retval) :=
  match cs with
  | [] => mret []
  | (c, e) :: cs' => r ← exec c e; rs ← run cs'; mret (r :: rs)
  end.

(** The statics after a successful [iscsi_logger_init]. *)
Definition booted : logger := final (iscsi_logger_init true initial).

(** A kernel in which every call succeeds, at time [t]. *)
Definition fine (t : Z) : env :=
  {| get_seconds := t; open_ok := true; wb_status := 0; wb_fsdata := None;
     we_status := PAGE_SIZE |}.

(** ** Reading the trace of kernel calls *)

(** The pages begun in each file, in the order the files were created: a
    successful [filp_open] starts a new file, a successful
    [pagecache_write_begin] adds the byte position of its page to the file
    in use.  [cur] collects the pages of the file in use at the start. *)
Fixpoint file_pages (cur : gset Z) (t : list event) : list (gset Z) :=
  match t with
  | [] => [cur]
  | FilpOpen _ true :: t' => cur :: file_pages ∅ t'
  | WriteBegin _ pos st :: t' =>
      file_pages (if st =? 0 then {[pos]} ∪ cur else cur) t'
  | _ :: t' => file_pages cur t'
  end.

(** Every page successfully begun in [t] has an index below [n]. *)
Definition begun_below (n : Z) (t : list event) : Prop :=
  ∀ f pos, WriteBegin f pos 0 ∈ t → ∃ p, 0 ≤ p < n ∧ pos = page_pos p.

Definition is_write_begin (ev : event) : bool :=
  match ev with WriteBegin _ _ _ => true | _ => false end.

Definition is_filp_open (ev : event) : bool :=
  match ev with FilpOpen _ _ => true | _ => false end.

(** The number of [filp_open] calls in a trace, failed ones included. *)
Fixpoint opens (t : list event) : Z :=
  match t with
  | [] => 0
  | FilpOpen _ _ :: t' => 1 + opens t'
  | _ :: t' => opens t'
  end.

(** The number of [pagecache_write_begin] calls in a trace. *)
Fixpoint begins (t : list event) : Z :=
  match t with
  | [] => 0
  | WriteBegin _ _ _ :: t' => 1 + begins t'
  | _ :: t' => begins t'
  end.

(** The number of [filp_close] calls in a trace. *)
Fixpoint closes (t : list event) : Z :=
  match t with
  | [] => 0
  | FilpClose _ :: t' => 1 + closes t'
  | _ :: t' => closes t'
  end.

(** Mappings made by [kmap_atomic] and not yet undone by [kunmap_atomic]. *)
Fixpoint outstanding (t : list event) : Z :=
  match t with
  | [] => 0
  | KmapAtomic _ :: t' => 1 + outstanding t'
  | KunmapAtomic _ :: t' => outstanding t' - 1
  | _ :: t' => outstanding t'
  end.

(** The pages handed to [pagecache_write_end], with the status it gave. *)
Fixpoint flushed (t : list event) : list (page * Z) :=
  match t with
  | [] => []
  | WriteEnd _ _ pg st :: t' => (pg, st) :: flushed t'
  | _ :: t' => flushed t'
  end.

(** The pages whose [pagecache_write_end] did not report an error. *)
Definition durable (t : list event) : list page :=
  (filter (λ p, 0 ≤ p.2) (flushed t)).*1.

(** ** Page layout *)

(** [packed pg c]: the stores in [pg] are message headers laid end to end
    from offset 0, the last message ending at [c]. *)
Inductive packed : page → Z → Prop :=
  | packed_empty : packed ∅ 0
  | packed_append pg c size type :
      packed pg c → 0 ≤ size →
      packed (<[c := MsgHdr size type]> pg) (c + size).


(** ** Invariants of the statics *)

(** A page is only ever held for an open file, and with no file open the
    positions are at the start. *)
Definition file_inv (s : logger) : Prop :=
  0 ≤ poffset s ∧
  (log_file s = None → log_page s = None ∧ poffset s = 0 ∧ offset s = 0).

(** What holds as long as no session was stopped with a page in use: an
    open page is packed up to the cursor, the cursor is inside the page,
    and it is at 0 when no page is open. *)
Definition page_inv (s : logger) : Prop :=
  0 ≤ offset s ≤ PAGE_SIZE ∧
  match log_page s with
  | Some pg => packed pg (offset s)
  | None => offset s = 0
  end.

(** ** States and kernels used in the examples *)

(** The same kernel answers, except for the status of
    [pagecache_write_end]. *)
Definition set_we_status (v : Z) (e : env) : env :=
  Env (get_seconds e) (open_ok e) (wb_status e) (wb_fsdata e) v.

(** Two outcomes that differ at most in the kernel calls they made. *)
Definition same_result {A} (r1 r2 : outcome A) : Prop :=
  match r1, r2 with
  | Ret a1 s1 _, Ret a2 s2 _ => a1 = a2 ∧ s1 = s2
  | Crash f1 s1 _, Crash f2 s2 _ => f1 = f2 ∧ s1 = s2
  | Hang s1 _, Hang s2 _ => s1 = s2
  | _, _ => False
  end.

(** A kernel whose [pagecache_write_begin] fails with [-ENOMEM]. *)
Definition no_page (t : Z) : env :=
  {| get_seconds := t; open_ok := true; wb_status := -12; wb_fsdata := None;
     we_status := PAGE_SIZE |}.

(** A kernel whose [filp_open] fails. *)
Definition no_file (t : Z) : env :=
  {| get_seconds := t; open_ok := false; wb_status := 0; wb_fsdata := None;
     we_status := PAGE_SIZE |}.

(** A kernel whose [pagecache_write_end] fails with [-EIO]. *)
Definition no_flush (t : Z) : env :=
  {| get_seconds := t; open_ok := true; wb_status := 0; wb_fsdata := None;
     we_status := -5 |}.

(** The kernel of all examples: every call succeeds, the clock stands at
    1316000000 (September 2011). *)
Definition k : env := fine 1316000000.

(** A session that has just been started on a booted logger. *)
Definition started : logger := final (run [(Start, k)] booted).

(** A started session with one message of 4000 bytes in its first page. *)
Definition one_message : logger :=
  final (run [(Start, k); (Alloc 4000 7, k); (Commit, k)] booted).

(** A logger configured through [nl_register_dir] with a size limit of 100
    bytes, less than a page ([MAX_DIR_PATH] taken as 256 here and below). *)
Definition tiny_limit : logger :=
  final (nl_register_dir 256 "/dev/shm" 0 100 booted).

(** A logger configured with a size limit of two pages per file. *)
Definition two_page_files : logger :=
  final (nl_register_dir 256 "/dev/shm" 0 (2 * PAGE_SIZE) booted).

(** A session that fills two pages, one message of a full page each. *)
Definition two_full_pages : list (call * env) :=
  [(Start, k); (Alloc PAGE_SIZE 7, k); (Commit, k);
   (Alloc PAGE_SIZE 7, k); (Commit, k)].


(** Two sessions: the first leaves 4000 bytes in its page and stops, the
    second asks for 200 bytes more. *)
Definition two_sessions : list (call * env) :=
  [(Start, k); (Alloc 4000 7, k); (Commit, k); (Stop, k);
   (Start, k); (Alloc 200 7, k); (Commit, k); (Stop, k)].

(** Two messages that do not fit one page together. *)
Definition two_pages : list (call * env) :=
  [(Alloc 4000 7, k); (Commit, k); (Alloc 200 7, k); (Commit, k)].

(** One message allocated and committed in a started session. *)
Definition one_commit : list (call * env) :=
  [(Start, k); (Alloc 8 1, k); (Commit, k)].

(** Two computations that agree, from every state, on what they return and
    on the statics they leave. *)
Definition indep {A} (m1 m2 : M A) : Prop :=
  ∀ s, same_result (m1 s) (m2 s).

(** ** The kernel's side of the calls *)

(** What the kernel holds on behalf of the logger: the file that is open,
    and the position of the page that was begun and not yet ended. *)
Abbreviation held := (option file * option Z)%type.

(** What the statics say the kernel holds. *)
Definition holds (s : logger) : held :=
  (log_file s,
   match log_page s with
   | Some _ => Some (page_pos (poffset s))
   | None => None
   end).

(** One kernel call against what is held: a file is opened only when none
    is open; it is closed only when it is the open one and no page is
    pending; a page is begun only on the open file with no page pending; a
    page is ended only on the open file, at the position at which it was
    begun; only the pending page is mapped.  [None] is a call that breaks
    one of these rules. *)
Definition kstep (h : held) (ev : event) : option held :=
  match ev, h with
  | FilpOpen path ok, (None, None) =>
      Some (if ok then Some path else None, None)
  | FilpClose f, (Some f', None) =>
      if String.eqb f f' then Some (None, None) else None
  | WriteBegin f pos st, (Some f', None) =>
      if String.eqb f f'
      then Some (Some f', if st =? 0 then Some pos else None)
      else None
  | WriteEnd f pos _ _, (Some f', Some pos') =>
      if String.eqb f f' && (pos =? pos') then Some (Some f', None) else None
  | KmapAtomic idx, (_, Some pos') =>
      if page_pos idx =? pos' then Some h else None
  | MutexLock, _ | MutexUnlock, _ | KunmapAtomic _, _ | Printk _ _, _ =>
      Some h
  | _, _ => None
  end.

Fixpoint ktrack (h : held) (t : list event) : option held :=
  match t with
  | [] => Some h
  | ev :: t' =>
      match kstep h ev with
      | Some h' => ktrack h' t'
      | None => None
      end
  end.

(** The call ended in the dereference of a NULL pointer. *)
Definition is_null_deref {A} (r : outcome A) : bool :=
  match r with
  | Crash NullDeref _ _ => true
  | _ => false
  end.

(** ** Reading a page back *)

(** A reader of a sealed page: starting at offset [a] it takes the header
    it finds, skips the size the header gives and goes on, and it stops at
    the end of the page or at the terminator, nowhere else.  At a place
    where the logger has stored nothing it reads what the page happened to
    hold: it has no result, [None]; neither has it when it runs out of
    [fuel]. *)
Fixpoint parse_page (fuel : nat) (pg : page) (a : Z) :
    option (list (Z * Z)) :=
  match fuel with
  | O => None
  | S n =>
      if PAGE_SIZE <=? a then Some []
      else match pg !! a with
           | Some (MsgHdr size type) =>
               cons (size, type) <$> parse_page n pg (a + size)
           | Some Terminator => Some []
           | None => None
           end
  end.

(** A page cannot hold more messages than it has bytes. *)
Definition read_page (pg : page) : option (list (Z * Z)) :=
  parse_page (S (Z.to_nat PAGE_SIZE)) pg 0.

(** The messages of a sequence of pages, provided every page can be
    read. *)
Fixpoint read_pages (pgs : list page) : option (list (Z * Z)) :=
  match pgs with
  | [] => Some []
  | pg :: pgs' =>
      match read_page pg, read_pages pgs' with
      | Some r, Some rs => Some (r ++ rs)
      | _, _ => None
      end
  end.

(** [chain pg a rs c]: in [pg] the messages [rs] follow each other from
    offset [a] to offset [c], each of positive size. *)
Fixpoint chain (pg : page) (a : Z) (rs : list (Z * Z)) (c : Z) : Prop :=
  match rs with
  | [] => a = c
  | (size, type) :: rs' =>
      pg !! a = Some (MsgHdr size type) ∧ 0 < size ∧ chain pg (a + size) rs' c
  end.

(** What [iscsi_logger_alloc] makes of a request: the size rounded, the
    type cut to a byte. *)
Definition as_stored (m : Z * Z) : Z * Z := (MSG_RND_UP m.1, u8 m.2).

(** One allocate and its commit per message. *)
Definition log_calls (e : env) (ms : list (Z * Z)) : list (call * env) :=
  ms ≫= λ m, [(Alloc m.1 m.2, e); (Commit, e)].

(** ** The self-test and the netlink front end *)

(** The loop of [iscsi_logger_test], with [n] iterations left at counter
    [i].  [ISCSI_LOG_MSG_SIZE] and [ISCSI_RAW_MSG] are macros of
    iscsi_logger.h, which is not under src/: they are the parameters
    [msg_size] and [raw].  [ei i] holds the kernel's answers during
    iteration [i].  The text the test prints into [msg->data] lies inside
    the message, of which a page records the header only. *)
Fixpoint iscsi_logger_test_loop (msg_size : Z → Z) (raw : Z) (ei : Z → env)
    (n : nat) (i : Z) : M unit :=
  match n with
  | O => mret tt
  | S n' =>
      let size := s32 (Z.rem i 1024 + 10) in
      msg ← iscsi_logger_alloc (ei i) (msg_size size) raw;
      match msg with
      | None => mret tt
      | Some _ =>
          iscsi_logger_commit;;
          iscsi_logger_test_loop msg_size raw ei n' (s32 (i + 1))
      end
  end.

(** [iscsi_logger_test]; [e0], [e1] and [e2] hold the kernel's answers
    during the start, the roll and the stop. *)
Definition iscsi_logger_test (msg_size : Z → Z) (raw : Z)
    (e0 : env) (ei : Z → env) (e1 e2 : env) : M unit :=
  iscsi_logger_start e0;;
  iscsi_logger_test_loop msg_size raw ei (Z.to_nat 1000000) 0;;
  iscsi_logger_roll e1;;
  iscsi_logger_stop e2.

Definition nl_test (msg_size : Z → Z) (raw : Z)
    (e0 : env) (ei : Z → env) (e1 e2 : env) : M Z :=
  iscsi_logger_test msg_size raw e0 ei e1 e2;;
  mret 0.

(** What iscsi_logger.h and netlink_iscsi_logger.h, neither under src/,
    fix for [nl_input]: the least length of a message
    ([sizeof(struct nlmsghdr) + sizeof(struct nl_msg)]), the version, the
    two message types and the size of the directory field. *)
Record nl_abi : Type := NlAbi {
  nl_min_len : Z;
  ISCSI_LOGGER_API_VER : Z;
  ISCSI_LOGGER_REGISTER : Z;
  ISCSI_LOGGER_TEST : Z;
  MAX_DIR_PATH : nat
}.

(** The fields [nl_input] and [nl_register_dir] read of a socket buffer. *)
Record sk_buff : Type := SkBuff {
  skb_len : Z;           (* skb->len *)
  nlmsg_len : Z;         (* nlh->nlmsg_len *)
  nlmsg_type : Z;
  nlmsg_seq : Z;
  nlmsg_pid : Z;
  version : Z;           (* msg->version *)
  reg_dir : string;      (* msg->reg_msg.dir *)
  reg_max_size : Z       (* msg->reg_msg.max_size *)
}.

(** What [nl_input] does with the buffer: the error it passes to
    [netlink_ack], and the length it passes to [skb_pull] ([None] on the
    two early returns, which do not pull). *)
Record nl_reply : Type := NlReply {
  acked : Z;
  pulled : option Z
}.

(** [nl_input]; [-EINVAL] is -22. *)
Definition nl_input (abi : nl_abi) (msg_size : Z → Z) (raw : Z)
    (e0 : env) (ei : Z → env) (e1 e2 : env) (skb : sk_buff) : M nl_reply :=
  if nlmsg_len skb <? nl_min_len abi then
    printk KERN_ERR ("nl_input: message truncated" +:+ nl);;
    mret (NlReply (-22) None)
  else if negb (version skb =? ISCSI_LOGGER_API_VER abi) then
    printk KERN_ERR
      ("nl_input: wrong version " +:+ fmt_ld (s32 (version skb)) +:+
       ", current=" +:+ fmt_ld (s32 (ISCSI_LOGGER_API_VER abi)) +:+ nl);;
    mret (NlReply (-22) None)
  else
    printk KERN_INFO
      ("nl_input: pid=" +:+ fmt_ld (s32 (nlmsg_pid skb)) +:+
       " seq=" +:+ fmt_ld (s32 (nlmsg_seq skb)) +:+
       " type=" +:+ fmt_ld (s32 (nlmsg_type skb)) +:+
       " skb->len=" +:+ fmt_ld (s32 (skb_len skb)) +:+ nl);;
    err ← (if nlmsg_type skb =? ISCSI_LOGGER_REGISTER abi then
             nl_register_dir (MAX_DIR_PATH abi) (reg_dir skb) (nlmsg_pid skb)
               (reg_max_size skb)
           else if nlmsg_type skb =? ISCSI_LOGGER_TEST abi then
             nl_test msg_size raw e0 ei e1 e2
           else
             printk KERN_ERR
               ("nl_input: unknown message type " +:+
                fmt_ld (s32 (nlmsg_type skb)) +:+ nl);;
             mret 0);
    mret (NlReply err (Some (nlmsg_len skb))).

(** ** Proof tools *)

(** Unfold the monad and the C functions, then reduce field accesses. *)
Ltac msimp :=
  cbv [mbind mret M_bind M_ret get modify emit crash hang after
       printk filp_open filp_close kmap_atomic kunmap_atomic store f_mapping
       mutex_lock mutex_unlock pagecache_write_begin pagecache_write_end
       put_log_page iscsi_logger_roll fetch_log_file_create fetch_log_file
       fetch_log_page_next fetch_log_page iscsi_logger_alloc
       iscsi_logger_commit iscsi_logger_start iscsi_logger_stop exec];
  cbn [app events final locked pid staging_dir buf max_file_size generation
       log_file log_page poffset offset paddr fsdata log_file_name
       set_locked set_pid set_staging_dir set_buf set_max_file_size
       set_generation set_log_file set_log_page set_poffset set_offset
       set_paddr set_fsdata set_log_file_name
       fmap option_fmap option_map default from_option id].

(** The same with the statics and the kernel's answers taken apart, so that
    every field access computes. *)
Ltac mred :=
  cbv [mbind mret M_bind M_ret get modify emit crash hang after
       printk filp_open filp_close kmap_atomic kunmap_atomic store f_mapping
       mutex_lock mutex_unlock pagecache_write_begin pagecache_write_end
       put_log_page iscsi_logger_roll fetch_log_file_create fetch_log_file
       fetch_log_page_next fetch_log_page iscsi_logger_alloc
       iscsi_logger_commit iscsi_logger_start iscsi_logger_stop exec
       app events final locked pid staging_dir buf max_file_size generation
       log_file log_page poffset offset paddr fsdata log_file_name
       set_locked set_pid set_staging_dir set_buf set_max_file_size
       set_generation set_log_file set_log_page set_poffset set_offset
       set_paddr set_fsdata set_log_file_name
       get_seconds open_ok wb_status wb_fsdata we_status set_we_status
       fmap option_fmap option_map default from_option id].

(** Split on every test the code makes. *)
Ltac mcr :=
  repeat (mred;
          match goal with
          | |- context [match ?x with Some _ => _ | None => _ end] =>
              destruct x eqn:?
          | |- context [if ?c then _ else _] => destruct c eqn:?
          end);
  mred.

(** Turn the boolean tests kept in the context into (in)equalities. *)
Ltac ztests :=
  repeat match goal with
         | H : (_ <? _) = true |- _ => apply Z.ltb_lt in H
         | H : (_ <? _) = false |- _ => apply Z.ltb_ge in H
         | H : (_ <=? _) = true |- _ => apply Z.leb_le in H
         | H : (_ <=? _) = false |- _ => apply Z.leb_gt in H
         | H : (_ =? _) = true |- _ => apply Z.eqb_eq in H
         | H : (_ =? _) = false |- _ => apply Z.eqb_neq in H
         end.

(** Record the range of every [u64 _] in sight. *)
Ltac u64_ranges :=
  repeat match goal with
         | |- context [u64 ?x] =>
             lazymatch goal with
             | _ : 0 ≤ u64 x < 2 ^ 64 |- _ => fail
             | _ => pose proof (Z.mod_pos_bound x (2 ^ 64) eq_refl :
                                  0 ≤ u64 x < 2 ^ 64)
             end
         | _ : context [u64 ?x] |- _ =>
             lazymatch goal with
             | _ : 0 ≤ u64 x < 2 ^ 64 |- _ => fail
             | _ => pose proof (Z.mod_pos_bound x (2 ^ 64) eq_refl :
                                  0 ≤ u64 x < 2 ^ 64)
             end
         end.

(** Close the arithmetic and equational leaves. *)
Ltac mfin :=
  ztests; repeat split; intros; simplify_eq;
  try (intuition (congruence || lia)).

(** Take apart membership in an explicit list of events. *)
Ltac in_events H :=
  repeat (apply elem_of_cons in H as [H|H]; [try discriminate H|]);
  try (by apply elem_of_nil in H).

Lemma PAGE_SIZE_val : PAGE_SIZE = 4096.
Proof. reflexivity. Qed.

Lemma u64_small x : 0 ≤ x < 2 ^ 64 → u64 x = x.
Proof. intros. unfold u64. apply Z.mod_small. lia. Qed.

Lemma u64_range x : 0 ≤ u64 x < 2 ^ 64.
Proof. unfold u64. apply Z.mod_pos_bound. lia. Qed.

Lemma s64_small x : - 2 ^ 63 ≤ x < 2 ^ 63 → s64 x = x.
Proof. intros. unfold s64. rewrite Z.mod_small; lia. Qed.

Lemma s32_small x : - 2 ^ 31 ≤ x < 2 ^ 31 → s32 x = x.
Proof. intros. unfold s32. rewrite Z.mod_small; lia. Qed.

(** The macro clears the two low bits of [s + 3]. *)
Lemma MSG_RND_UP_div s : MSG_RND_UP s = 4 * (u64 (s + 3) / 4).
Proof.
  unfold MSG_RND_UP.
  pose proof (u64_range (s + 3)) as Hr.
  assert (Hm : u64 (Z.lnot 3) = 2 ^ 64 - 4) by reflexivity.
  rewrite Hm.
  replace (2 ^ 64 - 4) with (Z.ldiff (Z.ones 64) (Z.ones 2)) by reflexivity.
  rewrite Z.ldiff_land, Z.land_assoc, Z.land_ones by lia.
  rewrite Z.mod_small by lia.
  rewrite <- Z.ldiff_land, Z.ldiff_ones_r by lia.
  rewrite Z.shiftl_mul_pow2, Z.shiftr_div_pow2 by lia.
  change (2 ^ 2) with 4. lia.
Qed.

Lemma MSG_RND_UP_range s : 0 ≤ MSG_RND_UP s < 2 ^ 64.
Proof.
  rewrite MSG_RND_UP_div. pose proof (u64_range (s + 3)).
  pose proof (Z.mul_div_le (u64 (s + 3)) 4). pose proof (Z.div_pos (u64 (s + 3)) 4).
  lia.
Qed.

(** Away from the top of [size_t] the macro is the least multiple of 4 that
    is not below [s]. *)
Lemma MSG_RND_UP_spec s :
  0 ≤ s ≤ 2 ^ 64 - 4 →
  s ≤ MSG_RND_UP s < s + 4 ∧ MSG_RND_UP s mod 4 = 0.
Proof.
  intros Hs. rewrite MSG_RND_UP_div, u64_small by lia.
  pose proof (Z.div_mod (s + 3) 4 ltac:(lia)).
  pose proof (Z.mod_pos_bound (s + 3) 4 ltac:(lia)).
  split; [lia|]. rewrite Z.mul_comm. apply Z.mod_mul. lia.
Qed.

Lemma MSG_RND_UP_le_page s : 0 ≤ s ≤ PAGE_SIZE → MSG_RND_UP s ≤ PAGE_SIZE.
Proof.
  rewrite PAGE_SIZE_val. intros Hs.
  rewrite MSG_RND_UP_div, u64_small by lia.
  assert ((s + 3) / 4 ≤ 4099 / 4) by (apply Z.div_le_mono; lia).
  change (4099 / 4) with 1024 in *. lia.
Qed.

(** ** The monad *)

Lemma events_after {A} o (r : outcome A) : events (after o r) = o ++ events r.
Proof. by destruct r. Qed.

Lemma final_after {A} o (r : outcome A) : final (after o r) = final r.
Proof. by destruct r. Qed.

(** ** Sealing a page: [put_log_page] *)

Lemma put_log_page_None e s :
  log_page s = None → put_log_page e s = Ret () s [].
Proof. intros H. msimp. by rewrite H. Qed.







(** ** Contract checks: [BUG_ON] *)

(** When the rounded size is larger than a page, [iscsi_logger_alloc]
    stops at its [BUG_ON] with the statics exactly as it found them and
    without a single kernel call. *)
Lemma oversize_alloc_is_fatal e s size type :
  PAGE_SIZE < MSG_RND_UP size →
  iscsi_logger_alloc e size type s = Crash BugOn s [].
Proof.
  intros H. apply Z.ltb_lt in H. unfold iscsi_logger_alloc.
  by rewrite H.
Qed.

(** Sizes between a page and the top of [size_t] are all caught. *)
Lemma oversize_alloc_in_range e s size type :
  PAGE_SIZE < size ≤ 2 ^ 64 - 4 →
  iscsi_logger_alloc e size type s = Crash BugOn s [].
Proof.
  intros H. apply oversize_alloc_is_fatal.
  pose proof (MSG_RND_UP_spec size) as Hs. rewrite PAGE_SIZE_val in *. lia.
Qed.

(** C7, on the code: the [BUG_ON] tests the size after [MSG_RND_UP], and
    [MSG_RND_UP] adds 3 in [size_t]: for the three largest sizes the sum
    wraps and the rounded size is 0.  A request of one byte more than a
    page is caught, with nothing touched; a request of [SIZE_MAX] bytes
    passes the check, has a page begun and is answered with a message at
    offset 0 whose header gives it the size 0, the cursor staying where it
    was. *)
Theorem oversize_alloc_passes_bug_on :
  iscsi_logger_alloc k (PAGE_SIZE + 1) 7 started = Crash BugOn started [] ∧
  PAGE_SIZE < 2 ^ 64 - 1 ∧ MSG_RND_UP (2 ^ 64 - 1) = 0 ∧
  ∃ s' o,
    iscsi_logger_alloc k (2 ^ 64 - 1) 7 started = Ret (Some 0) s' o ∧
    begins o = 1 ∧
    log_page s' = Some (<[0 := MsgHdr 0 7]> ∅) ∧
    offset s' = offset started.
Proof.
  split; [vm_compute; reflexivity|]. split; [done|].
  split; [vm_compute; reflexivity|].
  eexists _, _. split; [vm_compute; reflexivity|]. vm_compute. done.
Qed.

(** A commit before any mapping was ever made is caught. *)
Lemma commit_unmapped_is_fatal s :
  paddr s = None → iscsi_logger_commit s = Crash BugOn s [].
Proof. intros H. msimp. by rewrite H. Qed.

Lemma commit_mapped s a :
  paddr s = Some a → iscsi_logger_commit s = Ret () s [KunmapAtomic a].
Proof. intros H. msimp. by rewrite H. Qed.

(** C6, on the code: after start, one allocate and its commit no mapping is
    outstanding, and [paddr] still holds the address of the mapping that
    was undone; a second commit passes the [BUG_ON] and unmaps that address
    again. *)
Theorem second_commit_not_detected :
  outstanding (events (run one_commit booted)) = 0 ∧
  paddr (final (run one_commit booted)) = Some (Kaddr 0) ∧
  iscsi_logger_commit (final (run one_commit booted)) =
    Ret () (final (run one_commit booted)) [KunmapAtomic (Kaddr 0)].
Proof. vm_compute. done. Qed.

(** ** The cursor across sessions *)

(** C1, on the code: [iscsi_logger_stop] seals the page but keeps the
    cursor; the next session gets a page without the fit test and places
    its message at the old cursor.  With 4000 bytes left by the first
    session, the 200 bytes of the second are handed out at offset 4000 of a
    4096-byte page, the cursor ends at 4200, and the page sealed at the end
    holds a message that reaches beyond the page. *)
Theorem cursor_overruns_page_after_stop :
  ∃ s o pg1 pg2,
    run two_sessions booted =
      Ret [Void; Msg (Some 0); Void; Void; Void; Msg (Some 4000); Void; Void]
          s o ∧
    offset s = 4200 ∧ PAGE_SIZE < offset s ∧
    (flushed o).*1 = [pg1; pg2] ∧
    pg2 !! 4000 = Some (MsgHdr 200 7) ∧ PAGE_SIZE < 4000 + 200.
Proof.
  eexists _, _, _, _. split; [vm_compute; reflexivity|].
  vm_compute. done.
Qed.

(** ** One answer per call suffices *)

(** No call of the interface opens a file, begins a page or ends a page
    more than once, so the kernel's answers of one call fit in one [env]. *)
Lemma exec_asks_kernel_once c e s :
  0 ≤ opens (events (exec c e s)) ≤ 1 ∧
  0 ≤ begins (events (exec c e s)) ≤ 1 ∧
  (length (flushed (events (exec c e s))) ≤ 1)%nat.
Proof.
  destruct s as [lk pd sd bf mx gen lf lp po off pa fsd lfn],
    e as [secs ook wbs wbf wes].
  destruct c; mcr; cbn [opens begins flushed length]; lia.
Qed.

(** ** What every call preserves *)

Lemma exec_file_inv c e s :
  file_inv s →
  file_inv (final (exec c e s)) ∧
  max_file_size (final (exec c e s)) = max_file_size s ∧
  (1 ≤ max_file_size s → begun_below (max_file_size s) (events (exec c e s))).
Proof.
  destruct s, e. unfold file_inv, begun_below. mred. intros [H0 H1].
  destruct c; mcr; u64_ranges; ztests.
  all: split; [|split]; [mfin|done|].
  all: intros Hmax f pos Hin; in_events Hin.
  all: simplify_eq; eexists; (split; [|reflexivity]); try lia.
  all: destruct H1 as (_ & ? & _); [done|lia].
Qed.

Lemma events_bind {A B} (m : M A) (k : A → M B) s :
  events ((m ≫= k) s) =
  match m s with
  | Ret a s' o => o ++ events (k a s')
  | Crash _ _ o | Hang _ o => o
  end.
Proof.
  unfold mbind, M_bind. destruct (m s); [apply events_after|done|done].
Qed.

Lemma begun_below_app n t1 t2 :
  begun_below n t1 → begun_below n t2 → begun_below n (t1 ++ t2).
Proof.
  intros H1 H2 f pos Hin. apply elem_of_app in Hin as [Hin|Hin]; eauto.
Qed.

Lemma run_file_inv cs s :
  file_inv s → 1 ≤ max_file_size s →
  begun_below (max_file_size s) (events (run cs s)).
Proof.
  revert s. induction cs as [|[c e] cs IH]; intros s Hinv Hmax.
  - intros f pos Hin. cbn in Hin. by apply elem_of_nil in Hin.
  - cbn [run]. rewrite events_bind.
    destruct (exec_file_inv c e s Hinv) as (Hinv' & Hm & Hb).
    specialize (Hb Hmax).
    destruct (exec c e s) as [r s' o|? ? o|? o]; cbn [events final] in *;
      [|done|done].
    apply begun_below_app; [done|].
    rewrite events_bind. rewrite <- Hm in *.
    specialize (IH s' Hinv' Hmax).
    destruct (run cs s') as [rs s'' o'|? ? o'|? o']; cbn [events] in *;
      [|done|done].
    cbn. by rewrite app_nil_r.
Qed.

Lemma size_list_to_set_le (l : list Z) :
  (size (list_to_set l : gset Z) ≤ length l)%nat.
Proof.
  induction l as [|x l IH]; cbn [list_to_set length foldr].
  - by rewrite size_empty.
  - rewrite size_union_alt, size_singleton.
    assert (list_to_set l ∖ {[x]} ⊆ (list_to_set l : gset Z)) as Hsub.
    { intros y Hy. by apply elem_of_difference in Hy as [Hy _]. }
    apply subseteq_size in Hsub. lia.
Qed.

Lemma size_pages_le n (X : gset Z) :
  0 ≤ n →
  (∀ pos, pos ∈ X → ∃ p, 0 ≤ p < n ∧ pos = page_pos p) →
  Z.of_nat (size X) ≤ n.
Proof.
  intros Hn HX.
  assert (X ⊆ list_to_set (page_pos <$> seqZ 0 n)) as Hsub.
  { intros pos Hpos. destruct (HX pos Hpos) as (p & Hp & ->).
    apply elem_of_list_to_set, list_elem_of_fmap.
    exists p. split; [done|]. apply elem_of_seqZ. lia. }
  apply subseteq_size in Hsub.
  pose proof (size_list_to_set_le (page_pos <$> seqZ 0 n)) as Hle.
  rewrite length_fmap, length_seqZ in Hle. lia.
Qed.

Lemma file_pages_bound n t cur :
  0 ≤ n → begun_below n t →
  (∀ pos, pos ∈ cur → ∃ p, 0 ≤ p < n ∧ pos = page_pos p) →
  Forall (λ ps : gset Z, Z.of_nat (size ps) ≤ n) (file_pages cur t).
Proof.
  intros Hn. revert cur. induction t as [|ev t IH]; intros cur Ht Hcur.
  - cbn. constructor; [by apply size_pages_le|constructor].
  - assert (begun_below n t) as Ht'.
    { intros f pos Hin. apply (Ht f pos). by right. }
    destruct ev as [| |path [|]| |f pos st| | | |]; cbn [file_pages];
      try (by apply IH).
    + constructor; [by apply size_pages_le|].
      apply IH; [done|]. intros pos Hpos. set_solver.
    + apply IH; [done|].
      destruct (Z.eqb_spec st 0) as [->|Hne]; [|done].
      intros pos' [Hpos%elem_of_singleton|Hpos]%elem_of_union; [|by eauto].
      subst pos'. apply (Ht f pos). by left.
Qed.

(** ** Files and their pages *)

(** Whatever the limit, a page is begun at an index below it, or at index
    0: a file that is created always gets its first page. *)
Lemma exec_begun_below c e s :
  file_inv s →
  begun_below (Z.max 1 (max_file_size s)) (events (exec c e s)).
Proof.
  destruct s, e. unfold file_inv, begun_below. mred. intros [H0 H1].
  destruct c; mcr; u64_ranges; ztests.
  all: intros f pos Hin; in_events Hin.
  all: simplify_eq; eexists; (split; [|reflexivity]); try lia.
  all: destruct H1 as (_ & ? & _); [done|lia].
Qed.

Lemma run_begun_below cs s :
  file_inv s →
  begun_below (Z.max 1 (max_file_size s)) (events (run cs s)).
Proof.
  revert s. induction cs as [|[c e] cs IH]; intros s Hinv.
  - intros f pos Hin. cbn in Hin. by apply elem_of_nil in Hin.
  - cbn [run]. rewrite events_bind.
    destruct (exec_file_inv c e s Hinv) as (Hinv' & Hm & _).
    pose proof (exec_begun_below c e s Hinv) as Hb.
    destruct (exec c e s) as [r s' o|? ? o|? o]; cbn [events final] in *;
      [|done|done].
    apply begun_below_app; [done|].
    rewrite events_bind. rewrite <- Hm in *.
    specialize (IH s' Hinv').
    destruct (run cs s') as [rs s'' o'|? ? o'|? o']; cbn [events] in *;
      [|done|done].
    cbn. by rewrite app_nil_r.
Qed.

Lemma run_max_file_size cs s :
  file_inv s → max_file_size (final (run cs s)) = max_file_size s.
Proof.
  revert s. induction cs as [|[c e] cs IH]; intros s Hinv; [done|].
  destruct (exec_file_inv c e s Hinv) as (Hinv' & Hm & _).
  cbn [run]. unfold mbind at 1, M_bind at 1.
  destruct (exec c e s) as [r s' o| |]; cbn [final] in *; [|done|done].
  rewrite final_after. unfold mbind, M_bind.
  specialize (IH s' Hinv').
  destruct (run cs s') as [rs s'' o'| |]; cbn [final after mret M_ret] in *;
    congruence.
Qed.

(** C2, as amended: no file ever gets more than [max_file_size] pages, or
    more than one page when the limit is 0, whatever the calls and whatever
    the kernel answers; and when, after any such calls, the file in use is
    full and the message does not fit the open page, [iscsi_logger_alloc]
    closes the file and tries to create the next one before it begins any
    page, and the page it then begins is the first page of the new file. *)
Theorem pages_per_file_bounded cs s :
  file_inv s →
  Forall (λ ps : gset Z, Z.of_nat (size ps) ≤ Z.max 1 (max_file_size s))
         (file_pages ∅ (events (run cs s))) ∧
  ∀ e size type f pg,
    log_file (final (run cs s)) = Some f →
    log_page (final (run cs s)) = Some pg →
    MSG_RND_UP size ≤ PAGE_SIZE →
    PAGE_SIZE < u64 (offset (final (run cs s)) + MSG_RND_UP size) →
    max_file_size s ≤ u64 (poffset (final (run cs s)) + 1) →
    ∃ pre path post,
      events (iscsi_logger_alloc e size type (final (run cs s))) =
        pre ++ FilpClose f :: FilpOpen path (open_ok e) :: post ∧
      filter (λ ev, is_write_begin ev) pre = [] ∧
      filter (λ ev, is_write_begin ev) post =
        if open_ok e then [WriteBegin path 0 (wb_status e)] else [].
Proof.
  intros Hinv. split.
  - apply file_pages_bound; [lia|by apply run_begun_below|]. intros pos Hpos.
    by apply not_elem_of_empty in Hpos.
  - rewrite <- (run_max_file_size cs s Hinv).
    generalize (final (run cs s)). clear cs s Hinv. intros s.
    destruct s, e. mred.
    intros size type f pg -> -> H1 H2 H3.
    apply Z.leb_le in H1. apply Z.ltb_lt in H2. apply Z.ltb_ge in H3.
    mcr; ztests; try lia; simplify_eq.
    all: try (eexists [_; _; _], _, _; split; [reflexivity|done]).
    all: try (eexists [_; _; _; _], _, _; split; [reflexivity|done]).
    all: try (eexists [_], _, _; split; [reflexivity|done]).
    all: try (eexists [_; _], _, _; split; [reflexivity|done]).
Qed.

Lemma pages_per_file_bounded_witness :
  Forall (λ ps : gset Z, Z.of_nat (size ps) ≤ 2)
         (file_pages ∅ (events (run two_full_pages two_page_files))) ∧
  file_pages ∅ (events (run two_full_pages two_page_files)) =
    [∅; {[0; PAGE_SIZE]}] ∧
  ∃ pre path post,
    events (iscsi_logger_alloc k PAGE_SIZE 7
              (final (run two_full_pages two_page_files))) =
      pre ++ FilpClose "/dev/shm/1316000000.000" ::
             FilpOpen path true :: post ∧
    filter (λ ev, is_write_begin ev) pre = [] ∧
    filter (λ ev, is_write_begin ev) post = [WriteBegin path 0 0].
Proof.
  destruct (pages_per_file_bounded two_full_pages two_page_files) as [H1 H2].
  { vm_compute. split; [discriminate|intros; done]. }
  split; [exact H1|]. split; [vm_compute; reflexivity|].
  apply (H2 k PAGE_SIZE 7 "/dev/shm/1316000000.000"
            (<[0 := MsgHdr PAGE_SIZE 7]> ∅)).
  - reflexivity.
  - vm_compute. reflexivity.
  - vm_compute. discriminate.
  - vm_compute. reflexivity.
  - vm_compute. discriminate.
Defined.

(** C2 as stated fails for a limit below one page: configured with 100
    bytes the limit is 0 pages, and the first file still receives a page. *)
Lemma file_of_no_pages_gets_a_page :
  max_file_size tiny_limit = 0 ∧
  ¬ Forall (λ ps : gset Z, Z.of_nat (size ps) ≤ max_file_size tiny_limit)
      (file_pages ∅ (events (run [(Alloc 8 1, k); (Commit, k)] tiny_limit))).
Proof.
  split; [reflexivity|].
  assert (file_pages ∅ (events (run [(Alloc 8 1, k); (Commit, k)] tiny_limit))
          = [∅; {[0]}]) as -> by (vm_compute; reflexivity).
  intros H. apply Forall_cons in H as [_ H]. apply Forall_cons in H as [H _].
  rewrite size_singleton in H. change (max_file_size tiny_limit) with 0 in H.
  lia.
Qed.

(** ** Allocation *)




Lemma alloc_unavailable_aux e s size type :
  MSG_RND_UP size ≤ PAGE_SIZE → file_inv s →
  match iscsi_logger_alloc e size type s with
  | Ret r s' o =>
      (r = None →
         log_page s' = None ∧
         ((log_file s' = None ∧ open_ok e = false) ∨
          (log_file s' ≠ None ∧ wb_status e ≠ 0))) ∧
      (∀ path, FilpOpen path false ∈ o → r = None ∧ log_file s' = None) ∧
      (∀ f pos st, WriteBegin f pos st ∈ o → st ≠ 0 → r = None) ∧
      (log_file s = None → opens o = 1) ∧
      (log_file s = None → open_ok e = true → wb_status e = 0 → r ≠ None)
  | _ => False
  end.
Proof.
  destruct s as [lk pd sd bf mx gen lf lp po off pa fsd lfn],
    e as [secs ook wbs wbf wes].
  unfold file_inv. mred. intros Hle [Hp Hnofile]. apply Z.ltb_ge in Hle.
  rewrite Hle.
  mcr; ztests; simplify_eq.
  all: try (exfalso; destruct Hnofile as [? _]; [done|discriminate]).
  all: split; [|split; [|split; [|split]]].
  all: try (intros ? Hin; in_events Hin; by simplify_eq).
  all: try (intros ? ? ? Hin Hst; in_events Hin; by simplify_eq).
  all: try done.
  all: try (intros _; split; [done|]; first [by left|by right]).
  all: try (intros ->; exfalso; by destruct Hnofile as [? _]).
  all: destruct ook; [discriminate|]; intros _; split; [done|by left].
Qed.

(** C8, as amended: [iscsi_logger_alloc] returns NULL in two cases, and
    only in these: the file could not be created, or the file is there and
    [pagecache_write_begin] refused the page.  A failed [filp_open] always
    gives NULL and leaves the logger without a file, in a state from which
    the next call starts over: with no file open every call tries the open
    again (exactly once), and returns a message as soon as the open and the
    page request both succeed. *)
Theorem alloc_unavailable e s size type :
  MSG_RND_UP size ≤ PAGE_SIZE → file_inv s →
  ∃ r s' o,
    iscsi_logger_alloc e size type s = Ret r s' o ∧ file_inv s' ∧
    (r = None →
       log_page s' = None ∧
       ((log_file s' = None ∧ open_ok e = false) ∨
        (log_file s' ≠ None ∧ wb_status e ≠ 0))) ∧
    (∀ path, FilpOpen path false ∈ o → r = None ∧ log_file s' = None) ∧
    (∀ f pos st, WriteBegin f pos st ∈ o → st ≠ 0 → r = None) ∧
    (log_file s = None → opens o = 1) ∧
    (log_file s = None → open_ok e = true → wb_status e = 0 → r ≠ None).
Proof.
  intros Hle Hinv.
  pose proof (alloc_unavailable_aux e s size type Hle Hinv) as H.
  destruct (exec_file_inv (Alloc size type) e s Hinv) as [Hinv' _].
  cbn [exec] in Hinv'. unfold mbind, M_bind in Hinv'.
  destruct (iscsi_logger_alloc e size type s) as [r s' o| |]; [|done|done].
  cbn in Hinv'. exists r, s', o. done.
Qed.

Lemma alloc_unavailable_witness :
  ∃ r s' o,
    iscsi_logger_alloc (no_file 1316000000) 8 1 booted = Ret r s' o ∧
    file_inv s' ∧
    (r = None →
       log_page s' = None ∧
       ((log_file s' = None ∧ open_ok (no_file 1316000000) = false) ∨
        (log_file s' ≠ None ∧ wb_status (no_file 1316000000) ≠ 0))) ∧
    (∀ path, FilpOpen path false ∈ o → r = None ∧ log_file s' = None) ∧
    (∀ f pos st, WriteBegin f pos st ∈ o → st ≠ 0 → r = None) ∧
    (log_file booted = None → opens o = 1) ∧
    (log_file booted = None → open_ok (no_file 1316000000) = true →
     wb_status (no_file 1316000000) = 0 → r ≠ None).
Proof.
  apply (alloc_unavailable (no_file 1316000000) booted 8 1).
  - vm_compute. discriminate.
  - vm_compute. split; [discriminate|intros; done].
Defined.

(** C8 as stated fails: with the file open and no failed open anywhere,
    [iscsi_logger_alloc] still returns NULL when [pagecache_write_begin]
    fails. *)
Lemma null_with_file_open :
  ∃ s' o,
    iscsi_logger_alloc (no_page 1316000000) 200 1 one_message = Ret None s' o ∧
    log_file s' = Some "/dev/shm/1316000000.000" ∧ opens o = 0.
Proof. eexists _, _. split; [vm_compute; reflexivity|]. by vm_compute. Qed.

(** ** Flush failures *)

Lemma same_result_refl {A} (r : outcome A) : same_result r r.
Proof. by destruct r. Qed.

Lemma same_result_after {A} o1 o2 (r1 r2 : outcome A) :
  same_result r1 r2 → same_result (after o1 r1) (after o2 r2).
Proof. by destruct r1, r2. Qed.

Lemma indep_refl {A} (m : M A) : indep m m.
Proof. intros s. apply same_result_refl. Qed.

Lemma indep_bind {A B} (m1 m2 : M A) (k1 k2 : A → M B) :
  indep m1 m2 → (∀ a, indep (k1 a) (k2 a)) → indep (m1 ≫= k1) (m2 ≫= k2).
Proof.
  intros Hm Hk s. specialize (Hm s). unfold mbind, M_bind.
  destruct (m1 s) as [a1 s1 o1| |], (m2 s) as [a2 s2 o2| |]; try done.
  destruct Hm as [-> ->]. apply same_result_after, Hk.
Qed.

(** Compare two monadic terms of the same shape piece by piece; [base]
    relates the pieces that differ. *)
Ltac indep_tac base :=
  repeat first
    [ apply base
    | apply indep_refl
    | apply indep_bind; [|intros ?]
    | match goal with
      | |- indep (match ?x with Some _ => _ | None => _ end) _ => destruct x
      | |- indep (if ?c then _ else _) _ => destruct c
      end ].

(** The statics after [put_log_page] do not depend on what
    [pagecache_write_end] reported. *)
Lemma put_log_page_indep e v :
  indep (put_log_page e) (put_log_page (set_we_status v e)).
Proof.
  intros s. destruct s as [lk pd sd bf mx gen lf lp po off pa fsd lfn],
    e as [secs ook wbs wbf wes].
  mcr; done.
Qed.

Lemma exec_indep c e v : indep (exec c e) (exec c (set_we_status v e)).
Proof.
  destruct c; unfold exec, iscsi_logger_alloc; cbv zeta;
    indep_tac put_log_page_indep.
Qed.

Lemma run_indep cs v :
  indep (run cs) (run (prod_map id (set_we_status v) <$> cs)).
Proof.
  induction cs as [|[c e] cs IH]; cbn [fmap list_fmap run prod_map fst snd id].
  - apply indep_refl.
  - apply indep_bind; [apply exec_indep|]. intros r.
    apply indep_bind; [apply IH|]. intros rs. apply indep_refl.
Qed.

(** C9: when [pagecache_write_end] reports an error, [put_log_page] still
    returns; its last act towards the kernel is the [KERN_ERR] message, the
    page is not among those written, [log_page] and [fsdata] are released,
    and the statics are exactly those a successful flush leaves.  No call
    of the interface returns anything else, or leaves other statics, than
    it would had the flush succeeded: the failure is not reported to the
    caller and logging goes on as after a success. *)
Theorem flush_failure_is_swallowed e s pg f v :
  log_page s = Some pg → log_file s = Some f → we_status e < 0 →
  ∃ s' o,
    put_log_page e s = Ret () s' o ∧
    log_page s' = None ∧ fsdata s' = None ∧
    last o = Some (Printk KERN_ERR ("put_log_page: write_end() failed with "
                                    +:+ fmt_ld (we_status e) +:+ nl)) ∧
    durable o = [] ∧
    s' = final (put_log_page (set_we_status v e) s) ∧
    ∀ c, same_result (exec c e s) (exec c (set_we_status v e) s).
Proof.
  intros Hpg Hf Hst.
  pose proof (put_log_page_indep e v s) as Hi.
  assert (∀ c, same_result (exec c e s) (exec c (set_we_status v e) s)) as Hc
    by (intros c; apply exec_indep).
  revert Hpg Hf Hst Hi Hc.
  generalize (put_log_page (set_we_status v e) s).
  generalize (λ c, exec c (set_we_status v e) s).
  destruct s as [lk pd sd bf mx gen lf lp po off pa fsd lfn],
    e as [secs ook wbs wbf wes].
  mred. intros X r -> -> Hst. apply Z.ltb_lt in Hst. rewrite Hst.
  destruct (u64 off <? PAGE_SIZE); mred; intros Hi Hc.
  all: destruct r as [[] s2 o2| |]; try done; destruct Hi as [_ <-].
  all: eexists _, _; split; [reflexivity|].
  all: repeat (split; [reflexivity|]).
  all: split; [|done].
  all: unfold durable; cbn [flushed]; rewrite filter_cons, decide_False;
    [reflexivity|cbn; apply Z.ltb_lt in Hst; lia].
Qed.

Lemma flush_failure_is_swallowed_witness :
  ∃ s' o,
    put_log_page (no_flush 1316000000) one_message = Ret () s' o ∧
    log_page s' = None ∧ fsdata s' = None ∧
    last o = Some (Printk KERN_ERR
                     ("put_log_page: write_end() failed with " +:+
                      fmt_ld (we_status (no_flush 1316000000)) +:+ nl)) ∧
    durable o = [] ∧
    s' = final (put_log_page (set_we_status PAGE_SIZE (no_flush 1316000000))
                  one_message) ∧
    ∀ c, same_result (exec c (no_flush 1316000000) one_message)
           (exec c (set_we_status PAGE_SIZE (no_flush 1316000000)) one_message).
Proof.
  apply (flush_failure_is_swallowed (no_flush 1316000000) one_message
           {[0 := MsgHdr 4000 7]} "/dev/shm/1316000000.000" PAGE_SIZE).
  - reflexivity.
  - reflexivity.
  - vm_compute. reflexivity.
Defined.

(** ** Stopping a session *)

(** What [iscsi_logger_stop] does to the statics and asks of the kernel;
    the page index and the cursor are left as they are. *)
Lemma stop_seals_and_unlocks_aux e s :
  file_inv s → 0 ≤ offset s < 2 ^ 63 →
  match iscsi_logger_stop e s with
  | Ret _ s' o =>
      locked s' = false ∧ last o = Some MutexUnlock ∧
      log_page s' = None ∧
      log_file s' = log_file s ∧ closes o = 0 ∧
      poffset s' = poffset s ∧ offset s' = offset s ∧
      (flushed o).*1 =
        match log_page s with
        | Some pg => [if offset s <? PAGE_SIZE
                      then <[offset s := Terminator]> pg else pg]
        | None => []
        end
  | _ => False
  end.
Proof.
  destruct s as [lk pd sd bf mx gen lf lp po off pa fsd lfn],
    e as [secs ook wbs wbf wes].
  unfold file_inv. mred. intros [Hp Hnofile] Hoff.
  assert (u64 off = off) as -> by (apply u64_small; lia).
  mcr; ztests; simplify_eq.
  all: try (exfalso; destruct Hnofile as [? _]; [done|discriminate]).
  all: done.
Qed.

(** C5, as amended: [iscsi_logger_stop] seals the open page, if there is
    one, exactly as a page is sealed anywhere else (terminator at the
    cursor when the cursor is inside the page), hands it to
    [pagecache_write_end], and releases the mutex as its last act.  It does
    not close the file: [log_file] stays as it was and no [filp_close] is
    made. *)
Theorem stop_seals_and_unlocks e s :
  file_inv s → 0 ≤ offset s < 2 ^ 63 →
  ∃ s' o,
    iscsi_logger_stop e s = Ret () s' o ∧
    locked s' = false ∧ last o = Some MutexUnlock ∧
    log_page s' = None ∧
    log_file s' = log_file s ∧ closes o = 0 ∧
    (flushed o).*1 =
      match log_page s with
      | Some pg => [if offset s <? PAGE_SIZE
                    then <[offset s := Terminator]> pg else pg]
      | None => []
      end.
Proof.
  intros Hinv Hoff.
  pose proof (stop_seals_and_unlocks_aux e s Hinv Hoff) as H.
  destruct (iscsi_logger_stop e s) as [[] s' o| |]; [|done|done].
  destruct H as (H1 & H2 & H3 & H4 & H5 & _ & _ & H8).
  by exists s', o.
Qed.

Lemma stop_seals_and_unlocks_witness :
  ∃ s' o,
    iscsi_logger_stop k one_message = Ret () s' o ∧
    locked s' = false ∧ last o = Some MutexUnlock ∧
    log_page s' = None ∧
    log_file s' = log_file one_message ∧ closes o = 0 ∧
    (flushed o).*1 =
      match log_page one_message with
      | Some pg => [if offset one_message <? PAGE_SIZE
                    then <[offset one_message := Terminator]> pg else pg]
      | None => []
      end.
Proof.
  apply (stop_seals_and_unlocks k one_message).
  - vm_compute. split; [discriminate|intros; discriminate].
  - vm_compute. split; [discriminate|reflexivity].
Defined.

(** C5 as stated fails: after start, one message and stop, the file is
    still open and [filp_close] was never called. *)
Lemma stop_leaves_file_open :
  ∃ rs s o,
    run (one_commit ++ [(Stop, k)]) booted = Ret rs s o ∧
    locked s = false ∧
    log_file s = Some "/dev/shm/1316000000.000" ∧ closes o = 0.
Proof. eexists _, _, _. split; [vm_compute; reflexivity|]. by vm_compute. Qed.

(** ** File names and the generation counter *)


(** What a creation attempt does: [fetch_log_file] called with no file
    open, or with a full one. *)
Lemma fetch_log_file_creates e s :
  log_file s = None ∨ max_file_size s ≤ poffset s →
  match fetch_log_file e s with
  | Ret _ s' o =>
      opens o = 1 ∧
      FilpOpen (staging_dir s +:+ "/" +:+ fmt_10lu (get_seconds e) +:+ "." +:+
                fmt_03d (Z.rem (generation s) 1000)) (open_ok e) ∈ o ∧
      generation s' = s32 (generation s + 1) ∧
      log_file s' =
        (if open_ok e
         then Some (staging_dir s +:+ "/" +:+ fmt_10lu (get_seconds e) +:+
                    "." +:+ fmt_03d (Z.rem (generation s) 1000))
         else None) ∧
      log_file_name s' =
        fmt_10lu (get_seconds e) +:+ "." +:+
        fmt_03d (Z.rem (generation s) 1000)
  | _ => False
  end.
Proof.
  destruct s as [lk pd sd bf mx gen lf lp po off pa fsd lfn],
    e as [secs ook wbs wbf wes].
  mred. intros H.
  mcr; ztests; try (destruct H; [discriminate|lia]).
  all: cbn [opens]; repeat split; try done; solve [repeat constructor].
Qed.







(** A failed open uses up a generation: the file created next is numbered
    one higher. *)
Lemma failed_open_consumes_generation :
  filter (λ ev, is_filp_open ev)
    (events (run [(Alloc 8 1, no_file 1316000000); (Alloc 8 1, k)] booted)) =
  [FilpOpen "/dev/shm/1316000000.000" false;
   FilpOpen "/dev/shm/1316000000.001" true].
Proof. vm_compute. reflexivity. Qed.

(** The name carries the counter modulo 1000: generation 1000 is printed
    as 000 again. *)
Lemma generation_wraps_in_name :
  log_file_name (final (iscsi_logger_start k (set_generation 1000 booted))) =
  "1316000000.000".
Proof. vm_compute. reflexivity. Qed.

(** ** The cursor within a session *)

Lemma final_bind {A B} (m : M A) (k : A → M B) s :
  final ((m ≫= k) s) =
  match m s with
  | Ret a s' _ => final (k a s')
  | Crash _ s' _ | Hang s' _ => s'
  end.
Proof.
  unfold mbind, M_bind. destruct (m s); [apply final_after|done|done].
Qed.

(** Every call but [Stop] keeps the cursor inside the page and the open
    page packed up to the cursor. *)
Lemma exec_page_inv c e s :
  c ≠ Stop → file_inv s → page_inv s → page_inv (final (exec c e s)).
Proof.
  destruct s as [lk pd sd bf mx gen lf lp po off pa fsd lfn],
    e as [secs ook wbs wbf wes].
  unfold file_inv, page_inv. mred. intros Hc [Hp Hnofile] [Hoff Hpg].
  assert (PAGE_SIZE = 4096) as HP by reflexivity.
  destruct c; [| | | |done].
  all: mcr; ztests; simplify_eq.
  all: try (exfalso; destruct Hnofile as [? _]; [done|discriminate]).
  all: try done.
  all: try (split; [lia|done]).
  all: pose proof (MSG_RND_UP_range size) as Hn.
  all: try (rewrite u64_small in * by lia).
  all: rewrite s64_small by lia.
  all: split; [lia|].
  all: apply packed_append; first [done|lia|apply packed_empty].
Qed.

Lemma run_page_inv cs s :
  Forall (λ ce, ce.1 ≠ Stop) cs → file_inv s → page_inv s →
  page_inv (final (run cs s)).
Proof.
  revert s. induction cs as [|[c e] cs IH]; intros s Hcs Hf Hp; [done|].
  apply Forall_cons in Hcs as [Hc Hcs]. cbn [run]. rewrite final_bind.
  pose proof (exec_page_inv c e s Hc Hf Hp) as Hp'.
  destruct (exec_file_inv c e s Hf) as [Hf' _].
  destruct (exec c e s) as [r s' o| |]; [|done|done].
  cbn [final] in *. rewrite final_bind.
  specialize (IH s' Hcs Hf' Hp').
  by destruct (run cs s') as [rs s'' o'| |].
Qed.

(** The positive side of C1: from a booted logger, as long as no session
    is stopped, the cursor never leaves the page. *)
Lemma cursor_in_page_without_stop cs :
  Forall (λ ce, ce.1 ≠ Stop) cs →
  0 ≤ offset (final (run cs booted)) ≤ PAGE_SIZE.
Proof.
  intros Hcs. apply (run_page_inv cs booted Hcs).
  - split; [done|]. intros _. done.
  - split; [done|]. reflexivity.
Qed.

(** ** The kernel's side of the calls *)

Lemma ktrack_app h t1 t2 :
  ktrack h (t1 ++ t2) =
  match ktrack h t1 with
  | Some h' => ktrack h' t2
  | None => None
  end.
Proof.
  revert h. induction t1 as [|ev t1 IH]; intros h; [done|].
  cbn [app ktrack]. destruct (kstep h ev); [apply IH|done].
Qed.

Lemma exec_protocol_aux c e s :
  file_inv s →
  match exec c e s with
  | Ret _ s' o | Hang s' o => ktrack (holds s) o = Some (holds s')
  | Crash f s' o => f = BugOn ∧ ktrack (holds s) o = Some (holds s')
  end.
Proof.
  destruct s as [lk pd sd bf mx gen lf lp po off pa fsd lfn],
    e as [secs ook wbs wbf wes].
  unfold file_inv, holds. mred. intros [Hp Hnofile].
  destruct c; mcr; simplify_eq.
  all: try (exfalso; destruct Hnofile as [? _]; [done|discriminate]).
  all: try (destruct ook; simplify_eq).
  all: repeat first
         [ rewrite String.eqb_refl | rewrite Z.eqb_refl
         | match goal with
           | H : ?b = _ |- context [if ?b then _ else _] => rewrite H
           end
         | progress cbn [ktrack kstep andb] ].
  all: done.
Qed.

Lemma exec_protocol c e s :
  file_inv s →
  ktrack (holds s) (events (exec c e s)) = Some (holds (final (exec c e s))) ∧
  is_null_deref (exec c e s) = false.
Proof.
  intros Hinv. pose proof (exec_protocol_aux c e s Hinv) as H.
  destruct (exec c e s) as [r s' o|f s' o|s' o]; cbn [events final]; [done| |done].
  by destruct H as [-> H].
Qed.

Lemma run_protocol cs s :
  file_inv s →
  ktrack (holds s) (events (run cs s)) = Some (holds (final (run cs s))) ∧
  is_null_deref (run cs s) = false.
Proof.
  revert s. induction cs as [|[c e] cs IH]; intros s Hinv; [done|].
  destruct (exec_protocol c e s Hinv) as [Hk Hn].
  destruct (exec_file_inv c e s Hinv) as [Hinv' _].
  cbn [run]. unfold mbind, M_bind.
  destruct (exec c e s) as [r s' o|f s' o|s' o]; cbn [events final] in *;
    [|done|done].
  destruct (IH s' Hinv') as [Hk' Hn'].
  destruct (run cs s') as [rs s'' o'|f s'' o'|s'' o'];
    cbn [events final after is_null_deref mret M_ret] in *;
    rewrite ?app_nil_r, ktrack_app, Hk; done.
Qed.

(** X1: the calls a run makes to the kernel keep to the kernel's rules,
    whatever the calls of the interface and whatever the kernel answers: a
    file is opened only when none is open, closed only when it is the open
    one and no page is pending, a page is begun only on the open file with
    no page pending and ended on the same file at the position where it was
    begun, only the pending page is mapped; and at the end the kernel holds
    exactly what the statics say. *)
Theorem run_keeps_kernel_protocol cs s :
  file_inv s →
  ktrack (holds s) (events (run cs s)) = Some (holds (final (run cs s))).
Proof. intros Hinv. by destruct (run_protocol cs s Hinv). Qed.

Lemma run_keeps_kernel_protocol_witness :
  ktrack (holds booted) (events (run two_sessions booted)) =
  Some (holds (final (run two_sessions booted))).
Proof.
  apply (run_keeps_kernel_protocol two_sessions booted).
  vm_compute. split; [discriminate|intros; done].
Defined.

(** X2: no run dereferences a NULL [log_file]: [put_log_page] reads
    [log_file->f_mapping] only with a page open, and a page is only ever
    open while its file is. *)
Theorem run_never_null_deref cs s :
  file_inv s → is_null_deref (run cs s) = false.
Proof. intros Hinv. by destruct (run_protocol cs s Hinv). Qed.

Lemma run_never_null_deref_witness :
  is_null_deref (run two_sessions booted) = false.
Proof.
  apply (run_never_null_deref two_sessions booted).
  vm_compute. split; [discriminate|intros; done].
Defined.

(** ** Rolling over: [iscsi_logger_roll] *)

Lemma roll_aux e s :
  file_inv s →
  match iscsi_logger_roll e s with
  | Ret _ s' o =>
      log_file s' = None ∧ log_page s' = None ∧
      poffset s' = 0 ∧ offset s' = 0 ∧
      closes o = match log_file s with Some _ => 1 | None => 0 end ∧
      Z.of_nat (length (flushed o)) = match log_page s with Some _ => 1 | None => 0 end ∧
      opens o = 0 ∧ begins o = 0 ∧
      locked s' = locked s ∧ max_file_size s' = max_file_size s ∧
      generation s' = generation s ∧
      iscsi_logger_roll e s' = Ret () s' []
  | _ => False
  end.
Proof.
  destruct s as [lk pd sd bf mx gen lf lp po off pa fsd lfn],
    e as [secs ook wbs wbf wes].
  unfold file_inv. mred. intros [Hp Hnofile].
  mcr; simplify_eq.
  all: try (exfalso; destruct Hnofile as [? _]; [done|discriminate]).
  all: try done.
  all: destruct Hnofile as (? & ? & ?); [done|]; by simplify_eq.
Qed.

(** X3: from any state of the logger, [iscsi_logger_roll] returns with no
    file and no page and with both positions at 0, so that the cursor is
    valid again whatever it was before; it ends the open page (once) if
    there is one, closes the file (once) if there is one, and neither opens
    a file nor begins a page. *)
Theorem roll_closes_and_resets e s :
  file_inv s →
  ∃ s' o,
    iscsi_logger_roll e s = Ret () s' o ∧
    log_file s' = None ∧ log_page s' = None ∧
    poffset s' = 0 ∧ offset s' = 0 ∧ page_inv s' ∧ file_inv s' ∧
    closes o = match log_file s with Some _ => 1 | None => 0 end ∧
    Z.of_nat (length (flushed o)) = match log_page s with Some _ => 1 | None => 0 end ∧
    opens o = 0 ∧ begins o = 0.
Proof.
  intros Hinv. pose proof (roll_aux e s Hinv) as H.
  destruct (iscsi_logger_roll e s) as [[] s' o| |]; [|done|done].
  destruct H as (H1 & H2 & H3 & H4 & H5 & H6 & H7 & H8 & _).
  exists s', o. unfold page_inv, file_inv. rewrite H1, H2, H3, H4.
  repeat split; try done; vm_compute; discriminate.
Qed.

Lemma roll_closes_and_resets_witness :
  ∃ s' o,
    iscsi_logger_roll k one_message = Ret () s' o ∧
    log_file s' = None ∧ log_page s' = None ∧
    poffset s' = 0 ∧ offset s' = 0 ∧ page_inv s' ∧ file_inv s' ∧
    closes o = match log_file one_message with Some _ => 1 | None => 0 end ∧
    Z.of_nat (length (flushed o)) =
      match log_page one_message with Some _ => 1 | None => 0 end ∧
    opens o = 0 ∧ begins o = 0.
Proof.
  apply (roll_closes_and_resets k one_message).
  vm_compute. split; [discriminate|intros; discriminate].
Defined.

(** X4: rolling is idempotent: a roll right after a roll, and any roll with
    no file open, changes nothing and calls nothing. *)
Theorem roll_is_idempotent e1 e2 s :
  file_inv s →
  ∃ s' o,
    iscsi_logger_roll e1 s = Ret () s' o ∧
    iscsi_logger_roll e2 s' = Ret () s' [] ∧
    (log_file s = None → s' = s ∧ o = []).
Proof.
  intros Hinv. pose proof (roll_aux e1 s Hinv) as H.
  assert (log_file s = None → iscsi_logger_roll e1 s = Ret () s []) as Hn.
  { intros Hf. unfold iscsi_logger_roll, mbind, M_bind, get. by rewrite Hf. }
  destruct (iscsi_logger_roll e1 s) as [[] s' o| |]; [|done|done].
  destruct H as (H1 & _).
  exists s', o. split; [done|]. split.
  - unfold iscsi_logger_roll, mbind, M_bind, get. by rewrite H1.
  - intros Hf. specialize (Hn Hf). by simplify_eq.
Qed.

Lemma roll_is_idempotent_witness :
  ∃ s' o,
    iscsi_logger_roll k one_message = Ret () s' o ∧
    iscsi_logger_roll (no_file 7) s' = Ret () s' [] ∧
    (log_file one_message = None → s' = one_message ∧ o = []).
Proof.
  apply (roll_is_idempotent k (no_file 7) one_message).
  vm_compute. split; [discriminate|intros; discriminate].
Defined.

(** ** Starting a session: [iscsi_logger_start] *)

Lemma start_aux e s :
  file_inv s → locked s = false →
  match iscsi_logger_start e s with
  | Ret _ s' o =>
      locked s' = true ∧ begins o = 0 ∧ outstanding o = 0 ∧
      (opens o = 1 ↔ (log_file s = None ∨ max_file_size s ≤ poffset s)) ∧
      (opens o = 0 → s' = set_locked true s ∧ o = [MutexLock]) ∧
      (log_file s' = None ↔ (opens o = 1 ∧ open_ok e = false)) ∧
      (opens o = 1 → log_page s' = None ∧ poffset s' = 0 ∧ offset s' = 0)
  | _ => False
  end.
Proof.
  destruct s as [lk pd sd bf mx gen lf lp po off pa fsd lfn],
    e as [secs ook wbs wbf wes].
  unfold file_inv. mred. intros [Hp Hnofile] ->.
  mcr; ztests; simplify_eq.
  all: try (exfalso; destruct Hnofile as [? _]; [done|discriminate]).
  all: cbn [opens begins outstanding].
  all: try (destruct ook; simplify_eq).
  all: repeat split; intros; simplify_eq; try done; try lia; auto.
  all: try (destruct Hnofile as (? & ? & ?); done).
  all: try (destruct H; [discriminate|lia]).
  all: try (by destruct H).
Qed.

(** X5: [iscsi_logger_start] on a held mutex waits forever and touches
    nothing.  On a free mutex it returns with the mutex held, and it never
    begins or maps a page: with a file open and not yet full it does nothing
    else at all; with no file, or with a full one (which it rolls), it tries
    exactly one [filp_open] and leaves the positions at 0.  It returns just
    the same when that open fails: the session then starts without a
    file. *)
Theorem start_takes_lock e s :
  file_inv s →
  (locked s = true → iscsi_logger_start e s = Hang s []) ∧
  (locked s = false →
   ∃ s' o,
     iscsi_logger_start e s = Ret () s' o ∧
     locked s' = true ∧ begins o = 0 ∧ outstanding o = 0 ∧
     (opens o = 1 ↔ (log_file s = None ∨ max_file_size s ≤ poffset s)) ∧
     (opens o = 0 → s' = set_locked true s ∧ o = [MutexLock]) ∧
     (log_file s' = None ↔ (opens o = 1 ∧ open_ok e = false)) ∧
     (opens o = 1 → log_page s' = None ∧ poffset s' = 0 ∧ offset s' = 0)).
Proof.
  intros Hinv. split.
  - intros Hl. unfold iscsi_logger_start, mutex_lock, mbind, M_bind, get.
    by rewrite Hl.
  - intros Hl. pose proof (start_aux e s Hinv Hl) as H.
    destruct (iscsi_logger_start e s) as [[] s' o| |]; [|done|done].
    by exists s', o.
Qed.

Lemma start_takes_lock_witness :
  (locked booted = true → iscsi_logger_start (no_file 7) booted = Hang booted []) ∧
  (locked booted = false →
   ∃ s' o,
     iscsi_logger_start (no_file 7) booted = Ret () s' o ∧
     locked s' = true ∧ begins o = 0 ∧ outstanding o = 0 ∧
     (opens o = 1 ↔
      (log_file booted = None ∨ max_file_size booted ≤ poffset booted)) ∧
     (opens o = 0 → s' = set_locked true booted ∧ o = [MutexLock]) ∧
     (log_file s' = None ↔ (opens o = 1 ∧ open_ok (no_file 7) = false)) ∧
     (opens o = 1 → log_page s' = None ∧ poffset s' = 0 ∧ offset s' = 0)).
Proof.
  apply (start_takes_lock (no_file 7) booted).
  vm_compute. split; [discriminate|intros; done].
Defined.

(** ** Configuration: [nl_register_dir] *)

Lemma substring_length m s : (String.length (String.substring 0 m s) ≤ m)%nat.
Proof.
  revert s. induction m as [|m IH]; intros [|c s]; cbn [String.substring String.length];
    try lia.
  specialize (IH s). lia.
Qed.

Lemma substring_prefix m s : ∃ rest, s = String.substring 0 m s +:+ rest.
Proof.
  revert s. induction m as [|m IH]; intros [|c s]; cbn [String.substring].
  - by exists "".
  - by exists (String c s).
  - by exists "".
  - destruct (IH s) as [rest E]. exists rest.
    change (String c s = String c (String.substring 0 m s +:+ rest)). by rewrite <- E.
Qed.

Lemma substring_short m s :
  (String.length s ≤ m)%nat → String.substring 0 m s = s.
Proof.
  revert s. induction m as [|m IH]; intros [|c s]; cbn [String.substring String.length];
    try done; try lia.
  intros H. rewrite IH; [done|lia].
Qed.

Lemma register_dir_sets_limit_aux n dir p max_size s :
  0 ≤ max_size < 2 ^ 64 → locked s = false →
  ∃ msg,
    nl_register_dir n dir p max_size s =
      Ret 0 (set_max_file_size (max_size / PAGE_SIZE)
               (set_pid p (set_staging_dir (cut_dir n dir) s)))
          [MutexLock; MutexUnlock; Printk KERN_INFO msg].
Proof.
  intros Hm Hl.
  assert (u64 (Z.shiftr max_size PAGE_SHIFT) = max_size / PAGE_SIZE) as Hq.
  { rewrite Z.shiftr_div_pow2 by done. change (2 ^ PAGE_SHIFT) with PAGE_SIZE.
    apply u64_small. rewrite PAGE_SIZE_val.
    split; [apply Z.div_pos; lia|apply Z.div_lt_upper_bound; lia]. }
  destruct s as [lk pd sd bf mx gen lf lp po off pa fsd lfn].
  cbn [locked] in Hl. subst lk.
  unfold nl_register_dir. generalize (cut_dir n dir). intros d.
  mred. rewrite Hq. by eexists.
Qed.

(** X6: on a free mutex [nl_register_dir] returns 0, with the mutex free
    again, and installs the pid, a page limit of [max_size / PAGE_SIZE]
    rounded down (0 for any size below one page) and the directory of the
    message cut to its first [MAX_DIR_PATH - 1] characters: what is
    installed is a prefix of what was sent, shorter than [MAX_DIR_PATH],
    and all of it when that was shorter than [MAX_DIR_PATH].  The file, the
    page, the positions and the generation are left alone, so a new limit
    shows only when the next page is fetched.  On a held mutex the call
    waits forever and changes nothing. *)
Theorem register_dir_sets_limit n dir p max_size s :
  (1 ≤ n)%nat → 0 ≤ max_size < 2 ^ 64 →
  (locked s = true → nl_register_dir n dir p max_size s = Hang s []) ∧
  (locked s = false →
   ∃ msg,
     nl_register_dir n dir p max_size s =
       Ret 0 (set_max_file_size (max_size / PAGE_SIZE)
                (set_pid p (set_staging_dir (cut_dir n dir) s)))
           [MutexLock; MutexUnlock; Printk KERN_INFO msg] ∧
     (max_size < PAGE_SIZE → max_size / PAGE_SIZE = 0)) ∧
  (String.length (cut_dir n dir) < n)%nat ∧
  (∃ rest, dir = cut_dir n dir +:+ rest) ∧
  ((String.length dir < n)%nat → cut_dir n dir = dir).
Proof.
  intros Hn Hm. split; [|split; [|split; [|split]]].
  - intros Hl.
    unfold nl_register_dir, mutex_lock, mbind, M_bind, get. by rewrite Hl.
  - intros Hl.
    destruct (register_dir_sets_limit_aux n dir p max_size s Hm Hl) as [msg H].
    exists msg. split; [done|]. intros Hlt. apply Z.div_small. lia.
  - unfold cut_dir. pose proof (substring_length (n - 1) dir). lia.
  - apply substring_prefix.
  - intros Hlen. apply substring_short. lia.
Qed.

Lemma register_dir_sets_limit_witness :
  (locked booted = true →
   nl_register_dir 8 "/var/log/iscsi" 42 10000 booted = Hang booted []) ∧
  (locked booted = false →
   ∃ msg,
     nl_register_dir 8 "/var/log/iscsi" 42 10000 booted =
       Ret 0 (set_max_file_size (10000 / PAGE_SIZE)
                (set_pid 42 (set_staging_dir "/var/lo" booted)))
           [MutexLock; MutexUnlock; Printk KERN_INFO msg] ∧
     (10000 < PAGE_SIZE → 10000 / PAGE_SIZE = 0)) ∧
  (String.length (cut_dir 8 "/var/log/iscsi") < 8)%nat ∧
  (∃ rest, "/var/log/iscsi" = cut_dir 8 "/var/log/iscsi" +:+ rest) ∧
  ((String.length "/var/log/iscsi" < 8)%nat →
   cut_dir 8 "/var/log/iscsi" = "/var/log/iscsi").
Proof.
  apply (register_dir_sets_limit 8 "/var/log/iscsi" 42 10000 booted).
  - lia.
  - vm_compute. split; [discriminate|reflexivity].
Defined.

(** ** Unloading: [iscsi_logger_exit] *)

(** X7: a session that is stopped and the module then unloaded: the open
    page is ended by the stop, the file is closed by the exit, each exactly
    once, and the mutex ends free.  The exit does not clear [log_file],
    which still names the closed file. *)
Theorem stop_then_exit e s :
  file_inv s →
  ∃ s1 o1 o2,
    iscsi_logger_stop e s = Ret () s1 o1 ∧
    iscsi_logger_exit s1 = Ret () s1 o2 ∧
    locked s1 = false ∧ log_file s1 = log_file s ∧
    closes o1 = 0 ∧
    Z.of_nat (length (flushed o1)) =
      match log_page s with Some _ => 1 | None => 0 end ∧
    o2 = match log_file s with
         | Some f => [MutexLock; FilpClose f; MutexUnlock]
         | None => [MutexLock; MutexUnlock]
         end.
Proof.
  destruct s as [lk pd sd bf mx gen lf lp po off pa fsd lfn],
    e as [secs ook wbs wbf wes].
  unfold file_inv, iscsi_logger_exit. mred. intros [Hp Hnofile].
  mcr; simplify_eq.
  all: try (exfalso; destruct Hnofile as [? _]; [done|discriminate]).
  all: eexists _, _, _; split; [reflexivity|]; mred; done.
Qed.

Lemma stop_then_exit_witness :
  ∃ s1 o1 o2,
    iscsi_logger_stop k one_message = Ret () s1 o1 ∧
    iscsi_logger_exit s1 = Ret () s1 o2 ∧
    locked s1 = false ∧ log_file s1 = log_file one_message ∧
    closes o1 = 0 ∧
    Z.of_nat (length (flushed o1)) =
      match log_page one_message with Some _ => 1 | None => 0 end ∧
    o2 = match log_file one_message with
         | Some f => [MutexLock; FilpClose f; MutexUnlock]
         | None => [MutexLock; MutexUnlock]
         end.
Proof.
  apply (stop_then_exit k one_message).
  vm_compute. split; [discriminate|intros; discriminate].
Defined.

(** ** Rounding and the size check *)

(** X8: away from the top of [size_t], [MSG_RND_UP] gives the least
    multiple of 4 that is not below its argument, and rounding twice is
    rounding once. *)
Theorem MSG_RND_UP_least_multiple s :
  0 ≤ s ≤ 2 ^ 64 - 4 →
  MSG_RND_UP s mod 4 = 0 ∧ s ≤ MSG_RND_UP s ∧
  (∀ m, m mod 4 = 0 → s ≤ m → MSG_RND_UP s ≤ m) ∧
  MSG_RND_UP (MSG_RND_UP s) = MSG_RND_UP s.
Proof.
  intros Hs. destruct (MSG_RND_UP_spec s Hs) as [Hr Hm].
  split; [done|]. split; [lia|]. split.
  - intros m Hm4 Hsm.
    pose proof (Z.div_mod m 4 ltac:(lia)) as Hd.
    pose proof (Z.div_mod (MSG_RND_UP s) 4 ltac:(lia)) as Hd'. lia.
  - assert (0 ≤ MSG_RND_UP s ≤ 2 ^ 64 - 4) as Hr'.
    { pose proof (Z.div_mod (MSG_RND_UP s) 4 ltac:(lia)). lia. }
    destruct (MSG_RND_UP_spec _ Hr') as [Hr2 Hm2].
    pose proof (Z.div_mod (MSG_RND_UP (MSG_RND_UP s)) 4 ltac:(lia)).
    pose proof (Z.div_mod (MSG_RND_UP s) 4 ltac:(lia)). lia.
Qed.

Lemma MSG_RND_UP_least_multiple_witness :
  MSG_RND_UP 1033 mod 4 = 0 ∧ 1033 ≤ MSG_RND_UP 1033 ∧
  (∀ m, m mod 4 = 0 → 1033 ≤ m → MSG_RND_UP 1033 ≤ m) ∧
  MSG_RND_UP (MSG_RND_UP 1033) = MSG_RND_UP 1033.
Proof.
  apply (MSG_RND_UP_least_multiple 1033).
  vm_compute. split; discriminate.
Defined.

Lemma MSG_RND_UP_wraps s : 2 ^ 64 - 3 ≤ s < 2 ^ 64 → MSG_RND_UP s = 0.
Proof.
  intros Hs. rewrite MSG_RND_UP_div.
  assert (u64 (s + 3) = s + 3 - 2 ^ 64) as ->.
  { unfold u64. symmetry. apply (Z.mod_unique_pos _ _ 1); lia. }
  rewrite Z.div_small; lia.
Qed.

Lemma alloc_no_bug e s size type :
  MSG_RND_UP size ≤ PAGE_SIZE →
  match iscsi_logger_alloc e size type s with
  | Crash BugOn _ _ => False
  | _ => True
  end.
Proof.
  destruct s as [lk pd sd bf mx gen lf lp po off pa fsd lfn],
    e as [secs ook wbs wbf wes].
  mred. intros Hle. apply Z.ltb_ge in Hle. rewrite Hle.
  mcr; done.
Qed.

(** X9: for a size that fits [size_t], [iscsi_logger_alloc] ends in its
    [BUG_ON] exactly when the size is larger than a page and at most
    2^64 - 4; the three sizes above that wrap to 0 in the rounding and pass
    the check. *)
Theorem bug_on_catches_exactly e s size type :
  0 ≤ size < 2 ^ 64 →
  ((∃ s' o, iscsi_logger_alloc e size type s = Crash BugOn s' o) ↔
   PAGE_SIZE < size ≤ 2 ^ 64 - 4) ∧
  (2 ^ 64 - 4 < size → MSG_RND_UP size = 0).
Proof.
  intros Hs. split; [split|].
  - intros (s' & o & H).
    destruct (decide (PAGE_SIZE < size ≤ 2 ^ 64 - 4)) as [|Hn]; [done|].
    exfalso. assert (MSG_RND_UP size ≤ PAGE_SIZE) as Hle.
    { destruct (decide (size ≤ PAGE_SIZE)).
      - apply MSG_RND_UP_le_page. lia.
      - rewrite MSG_RND_UP_wraps by lia. done. }
    pose proof (alloc_no_bug e s size type Hle) as Hb. by rewrite H in Hb.
  - intros H. exists s, [].
    assert ((PAGE_SIZE <? MSG_RND_UP size) = true) as Hb.
    { apply Z.ltb_lt. pose proof (MSG_RND_UP_spec size) as Hsp.
      rewrite PAGE_SIZE_val in *. lia. }
    unfold iscsi_logger_alloc. by rewrite Hb.
  - intros H. apply MSG_RND_UP_wraps. lia.
Qed.

Lemma bug_on_catches_exactly_witness :
  ((∃ s' o, iscsi_logger_alloc k (2 ^ 64 - 1) 7 started = Crash BugOn s' o) ↔
   PAGE_SIZE < 2 ^ 64 - 1 ≤ 2 ^ 64 - 4) ∧
  (2 ^ 64 - 4 < 2 ^ 64 - 1 → MSG_RND_UP (2 ^ 64 - 1) = 0).
Proof.
  apply (bug_on_catches_exactly k started (2 ^ 64 - 1) 7).
  vm_compute. split; [discriminate|reflexivity].
Defined.

(** ** Allocation in the open page *)

Lemma alloc_fits e s pg size type :
  log_page s = Some pg →
  MSG_RND_UP size ≤ PAGE_SIZE →
  u64 (offset s + MSG_RND_UP size) ≤ PAGE_SIZE →
  iscsi_logger_alloc e size type s =
    Ret (Some (offset s))
        (set_log_page
           (Some (<[offset s := MsgHdr (MSG_RND_UP size) (u8 type)]> pg))
           (set_offset (s64 (offset s + MSG_RND_UP size))
              (set_paddr (Some (Kaddr (poffset s))) s)))
        [KmapAtomic (poffset s)].
Proof.
  destruct s as [lk pd sd bf mx gen lf lp po off pa fsd lfn].
  mred. intros -> H1 H2. apply Z.ltb_ge in H1. apply Z.leb_le in H2.
  rewrite H1. mred. by rewrite H2.
Qed.

(** X10: an allocation that fits the open page does no I/O: its only kernel
    call is the mapping of the page, it returns the cursor as address and
    leaves the file, the page index and the generation alone; what the
    kernel would have answered, and the size limit of the file, play no
    part. *)
Theorem alloc_in_open_page e s pg size type :
  log_page s = Some pg →
  MSG_RND_UP size ≤ PAGE_SIZE →
  u64 (offset s + MSG_RND_UP size) ≤ PAGE_SIZE →
  ∃ s',
    iscsi_logger_alloc e size type s =
      Ret (Some (offset s)) s' [KmapAtomic (poffset s)] ∧
    log_file s' = log_file s ∧ poffset s' = poffset s ∧
    generation s' = generation s ∧
    (∀ e', iscsi_logger_alloc e' size type s =
           iscsi_logger_alloc e size type s) ∧
    (∀ mx, same_result
             (iscsi_logger_alloc e size type (set_max_file_size mx s))
             (Ret (Some (offset s)) (set_max_file_size mx s') [])).
Proof.
  intros Hpg H1 H2. eexists. split; [by apply alloc_fits|].
  repeat split.
  - intros e'. by rewrite !(alloc_fits _ s pg).
  - intros mx. rewrite (alloc_fits _ _ pg) by done. done.
Qed.

Lemma alloc_in_open_page_witness :
  ∃ s',
    iscsi_logger_alloc (no_file 7) 8 1 one_message =
      Ret (Some (offset one_message)) s' [KmapAtomic (poffset one_message)] ∧
    log_file s' = log_file one_message ∧ poffset s' = poffset one_message ∧
    generation s' = generation one_message ∧
    (∀ e', iscsi_logger_alloc e' 8 1 one_message =
           iscsi_logger_alloc (no_file 7) 8 1 one_message) ∧
    (∀ mx, same_result
             (iscsi_logger_alloc (no_file 7) 8 1
                (set_max_file_size mx one_message))
             (Ret (Some (offset one_message)) (set_max_file_size mx s') [])).
Proof.
  apply (alloc_in_open_page (no_file 7) one_message {[0 := MsgHdr 4000 7]} 8 1).
  - reflexivity.
  - vm_compute. discriminate.
  - vm_compute. discriminate.
Defined.

(** X11: a request whose rounded size is 0 always fits the open page: the
    cursor is returned as the address, a header is stored there and the
    cursor stays.  On a page that is exactly full this address is
    [PAGE_SIZE]: the header is stored one past the end of the page. *)
Theorem zero_size_alloc_on_full_page e s pg size type :
  log_page s = Some pg → offset s = PAGE_SIZE → MSG_RND_UP size = 0 →
  ∃ s',
    iscsi_logger_alloc e size type s =
      Ret (Some PAGE_SIZE) s' [KmapAtomic (poffset s)] ∧
    offset s' = PAGE_SIZE ∧
    log_page s' = Some (<[PAGE_SIZE := MsgHdr 0 (u8 type)]> pg).
Proof.
  intros Hpg Hoff Hz. eexists. split.
  - rewrite (alloc_fits e s pg) by (rewrite ?Hz, ?Hoff; done).
    rewrite Hz, Hoff. reflexivity.
  - done.
Qed.

Lemma zero_size_alloc_on_full_page_witness :
  ∃ s',
    iscsi_logger_alloc k 0 1 (set_log_page (Some ∅) (set_offset PAGE_SIZE started)) =
      Ret (Some PAGE_SIZE) s'
          [KmapAtomic (poffset (set_log_page (Some ∅)
                                  (set_offset PAGE_SIZE started)))] ∧
    offset s' = PAGE_SIZE ∧
    log_page s' = Some (<[PAGE_SIZE := MsgHdr 0 (u8 1)]> ∅).
Proof.
  apply (zero_size_alloc_on_full_page k
           (set_log_page (Some ∅) (set_offset PAGE_SIZE started)) ∅ 0 1).
  - reflexivity.
  - reflexivity.
  - reflexivity.
Defined.

(** ** File names *)

Lemma dec_inj n m : dec n = dec m → n = m.
Proof.
  unfold dec. intros H.
  assert (∀ z, NilZero.int_of_string (NilZero.string_of_int (Z.to_int z)) =
               Some (Z.to_int z)) as Hisi.
  { intros z. apply NilZero.isi; destruct z; cbn; try discriminate;
      intros [= Hp]; by apply Unsigned.to_uint_nonnil in Hp. }
  apply (f_equal NilZero.int_of_string) in H. rewrite !Hisi in H.
  injection H as H. apply (f_equal Z.of_int) in H.
  by rewrite !DecimalZ.of_to in H.
Qed.

Lemma dec_head n :
  0 ≤ n → ∃ a r, dec n = String a r ∧ a ≠ " "%char.
Proof.
  intros Hn. unfold dec. destruct n as [|p|p]; [by eexists _, _| |lia].
  cbn [Z.to_int NilZero.string_of_int].
  pose proof (Unsigned.to_uint_nonnil p) as Hnil.
  destruct (Pos.to_uint p); [done|..]; by eexists _, _.
Qed.

Lemma pad_inj c k1 k2 a1 r1 a2 r2 :
  a1 ≠ c → a2 ≠ c →
  pad c k1 (String a1 r1) = pad c k2 (String a2 r2) →
  String a1 r1 = String a2 r2.
Proof.
  intros H1 H2. revert k2. induction k1 as [|k1 IH]; intros [|k2] H;
    cbn [pad] in H; try done.
  - injection H as -> _. done.
  - injection H as <- _. done.
  - injection H as H. by apply IH in H.
Qed.

Lemma fmt_10lu_inj t1 t2 : fmt_10lu t1 = fmt_10lu t2 → u64 t1 = u64 t2.
Proof.
  unfold fmt_10lu, pad_left. intros H.
  destruct (dec_head (u64 t1)) as (a1 & r1 & E1 & Ha1); [apply u64_range|].
  destruct (dec_head (u64 t2)) as (a2 & r2 & E2 & Ha2); [apply u64_range|].
  apply dec_inj. rewrite E1, E2 in *. by apply pad_inj in H.
Qed.

Lemma length_append (a b : string) :
  String.length (a +:+ b) = (String.length a + String.length b)%nat.
Proof.
  induction a as [|c a IH]; [done|].
  cbn [String.length Nat.add]. rewrite <- IH. reflexivity.
Qed.

Lemma append_inj_r (a1 a2 b1 b2 : string) :
  String.length b1 = String.length b2 →
  a1 +:+ b1 = a2 +:+ b2 → a1 = a2 ∧ b1 = b2.
Proof.
  intros Hl. revert a2. induction a1 as [|c a1 IH]; intros [|c' a2] H.
  - done.
  - exfalso. apply (f_equal String.length) in H.
    rewrite !length_append in H. cbn [String.length] in H. lia.
  - exfalso. apply (f_equal String.length) in H.
    rewrite !length_append in H. cbn [String.length] in H. lia.
  - change (String c (a1 +:+ b1) = String c' (a2 +:+ b2)) in H.
    injection H as -> H. apply IH in H as [-> ->]. done.
Qed.

Lemma fmt_03d_signed g :
  - 1000 < g < 1000 →
  Z.of_int <$> NilZero.int_of_string (fmt_03d g) = Some g.
Proof.
  intros Hg.
  assert (forallb (λ g, match Z.of_int <$> NilZero.int_of_string (fmt_03d g) with
                        | Some x => x =? g
                        | None => false
                        end) (seqZ (- 999) 1999) = true) as Hall
    by (vm_compute; reflexivity).
  rewrite forallb_forall in Hall. specialize (Hall g).
  assert (In g (seqZ (- 999) 1999)) as Hin
    by (apply list_elem_of_In, elem_of_seqZ; lia).
  apply Hall in Hin.
  destruct (Z.of_int <$> NilZero.int_of_string (fmt_03d g)); [|done].
  by apply Z.eqb_eq in Hin as ->.
Qed.

(** The decimal digits of a number hold no dot, nor do the blanks put in
    front of them. *)
Lemma lacks_uint d : lacks "." (NilEmpty.string_of_uint d) = true.
Proof. induction d; cbn; done. Qed.

Lemma lacks_dec n : lacks "." (dec n) = true.
Proof.
  unfold dec. destruct (Z.to_int n) as [d|d];
    cbn [NilZero.string_of_int NilZero.string_of_uint].
  - destruct d; try done; apply (lacks_uint (_ _)).
  - change (lacks "." (NilZero.string_of_uint d) = true).
    destruct d; try done; apply (lacks_uint (_ _)).
Qed.

Lemma lacks_pad n s : lacks "." s = true → lacks "." (pad " " n s) = true.
Proof. intros H. induction n as [|n IH]; [done|]. cbn. exact IH. Qed.

(** Two strings that agree, each made of a part without dot, a dot and a
    rest, agree part by part. *)
Lemma split_at_dot a1 a2 b1 b2 :
  lacks "." a1 = true → lacks "." a2 = true →
  a1 +:+ "." +:+ b1 = a2 +:+ "." +:+ b2 → a1 = a2 ∧ b1 = b2.
Proof.
  revert a2. induction a1 as [|c a1 IH]; intros [|c' a2] H1 H2 H.
  - change (String "." b1 = String "." b2) in H. by injection H as ->.
  - exfalso. change (String "." b1 = String c' (a2 +:+ "." +:+ b2)) in H.
    injection H as <- _. cbn in H2. discriminate.
  - exfalso. change (String c (a1 +:+ "." +:+ b1) = String "." b2) in H.
    injection H as -> _. cbn in H1. discriminate.
  - change (String c (a1 +:+ "." +:+ b1) = String c' (a2 +:+ "." +:+ b2)) in H.
    injection H as -> H.
    cbn [lacks] in H1, H2. apply andb_prop in H1 as [_ H1].
    apply andb_prop in H2 as [_ H2].
    destruct (IH a2 H1 H2 H) as [-> ->]. done.
Qed.

Lemma fetch_log_file_name e s :
  log_file s = None ∨ max_file_size s ≤ poffset s →
  log_file_name (final (fetch_log_file e s)) =
  fmt_10lu (get_seconds e) +:+ "." +:+ fmt_03d (Z.rem (generation s) 1000).
Proof.
  intros Hc. pose proof (fetch_log_file_creates e s Hc) as H.
  destruct (fetch_log_file e s) as [[] s' o| |]; [|done|done].
  destruct H as (_ & _ & _ & _ & Hn). exact Hn.
Qed.

(** X12: two files created by [fetch_log_file], called with no file open
    or with a full one, get the same name exactly when they are created in
    the same second and the remainders of their generations by 1000 agree,
    as [%] computes them, whatever the counters.  For counters that are not
    negative this is agreement modulo 1000: generations less than 1000
    apart never collide within one second, generations 1000 apart do. *)
Theorem names_identify_second_and_generation e1 e2 s1 s2 :
  log_file s1 = None ∨ max_file_size s1 ≤ poffset s1 →
  log_file s2 = None ∨ max_file_size s2 ≤ poffset s2 →
  (log_file_name (final (fetch_log_file e1 s1)) =
     log_file_name (final (fetch_log_file e2 s2)) ↔
   u64 (get_seconds e1) = u64 (get_seconds e2) ∧
   Z.rem (generation s1) 1000 = Z.rem (generation s2) 1000) ∧
  (0 ≤ generation s1 → 0 ≤ generation s2 →
   (Z.rem (generation s1) 1000 = Z.rem (generation s2) 1000 ↔
    generation s1 mod 1000 = generation s2 mod 1000)).
Proof.
  intros Hc1 Hc2. split.
  - rewrite !fetch_log_file_name by done.
    pose proof (Z.rem_bound_abs (generation s1) 1000 ltac:(lia)) as Hb1.
    pose proof (Z.rem_bound_abs (generation s2) 1000 ltac:(lia)) as Hb2.
    pose proof (fmt_03d_signed (Z.rem (generation s1) 1000) ltac:(lia)) as Hd1.
    pose proof (fmt_03d_signed (Z.rem (generation s2) 1000) ltac:(lia)) as Hd2.
    split.
    + intros H. apply split_at_dot in H as [Ht Hg].
      * split; [by apply fmt_10lu_inj|]. rewrite Hg in Hd1. by simplify_eq.
      * apply lacks_pad, lacks_dec.
      * apply lacks_pad, lacks_dec.
    + intros [Ht Hg]. unfold fmt_10lu. by rewrite Ht, Hg.
  - intros Hg1 Hg2. by rewrite !Z.rem_mod_nonneg by lia.
Qed.

Lemma names_identify_second_and_generation_witness :
  (log_file_name (final (fetch_log_file k booted)) =
     log_file_name (final (fetch_log_file k (set_generation 2000 booted))) ↔
   u64 (get_seconds k) = u64 (get_seconds k) ∧
   Z.rem (generation booted) 1000 =
     Z.rem (generation (set_generation 2000 booted)) 1000) ∧
  (0 ≤ generation booted → 0 ≤ generation (set_generation 2000 booted) →
   (Z.rem (generation booted) 1000 =
      Z.rem (generation (set_generation 2000 booted)) 1000 ↔
    generation booted mod 1000 =
      generation (set_generation 2000 booted) mod 1000)).
Proof.
  apply (names_identify_second_and_generation k k booted
           (set_generation 2000 booted)).
  - left. reflexivity.
  - left. reflexivity.
Defined.

(** ** Reading back what was written *)

Lemma chain_le pg a rs c : chain pg a rs c → a ≤ c.
Proof.
  revert a. induction rs as [|[sz ty] rs IH]; intros a; cbn [chain].
  - lia.
  - intros (_ & Hsz & H). apply IH in H. lia.
Qed.

Lemma chain_length pg a rs c :
  chain pg a rs c → a + Z.of_nat (length rs) ≤ c.
Proof.
  revert a. induction rs as [|[sz ty] rs IH]; intros a; cbn [chain length].
  - lia.
  - intros (_ & Hsz & H). apply IH in H. lia.
Qed.

Lemma chain_insert pg a rs c x :
  chain pg a rs c → chain (<[c := x]> pg) a rs c.
Proof.
  revert a. induction rs as [|[sz ty] rs IH]; intros a; cbn [chain]; [done|].
  intros (Hl & Hsz & H). pose proof (chain_le _ _ _ _ H).
  rewrite lookup_insert_ne by lia. auto.
Qed.

Lemma chain_snoc pg a rs c size type :
  chain pg a rs c → 0 < size →
  chain (<[c := MsgHdr size type]> pg) a (rs ++ [(size, type)]) (c + size).
Proof.
  revert a. induction rs as [|[sz ty] rs IH]; intros a; cbn [chain app].
  - intros -> Hsz. by rewrite lookup_insert_eq.
  - intros (Hl & Hsz & H) Hsize. pose proof (chain_le _ _ _ _ H).
    rewrite lookup_insert_ne by lia. auto.
Qed.

Lemma parse_chain fuel pg a rs c :
  chain pg a rs c → c ≤ PAGE_SIZE →
  (c < PAGE_SIZE → pg !! c = Some Terminator) →
  (length rs < fuel)%nat →
  parse_page fuel pg a = Some rs.
Proof.
  revert fuel a. induction rs as [|[sz ty] rs IH]; intros [|fuel] a;
    cbn [chain parse_page length]; try lia.
  - intros -> Hc Hend _. destruct (Z.leb_spec PAGE_SIZE c) as [|Hlt]; [done|].
    by rewrite Hend.
  - intros (Hl & Hsz & H) Hc Hend Hf. pose proof (chain_le _ _ _ _ H).
    destruct (Z.leb_spec PAGE_SIZE a); [lia|].
    rewrite Hl, (IH fuel (a + sz)); [done|done|done|done|lia].
Qed.

(** The reader has no result on a page whose messages end, before the end
    of the page, at a place where nothing was stored. *)
Lemma parse_open_chain fuel pg a rs c :
  chain pg a rs c → c < PAGE_SIZE → pg !! c = None →
  parse_page fuel pg a = None.
Proof.
  revert fuel a. induction rs as [|[sz ty] rs IH]; intros [|fuel] a;
    cbn [chain parse_page]; try done.
  - intros -> Hc Hend. destruct (Z.leb_spec PAGE_SIZE c); [lia|].
    by rewrite Hend.
  - intros (Hl & Hsz & H) Hc Hend. pose proof (chain_le _ _ _ _ H).
    destruct (Z.leb_spec PAGE_SIZE a); [lia|].
    by rewrite Hl, (IH fuel (a + sz)).
Qed.

(** What the reader finds in a sealed page that held [rs]. *)
Lemma read_sealed pg rs c :
  chain pg 0 rs c → c ≤ PAGE_SIZE →
  read_page (if c <? PAGE_SIZE then <[c := Terminator]> pg else pg) =
    Some rs.
Proof.
  intros Hch Hc. pose proof (chain_length _ _ _ _ Hch) as Hlen.
  unfold read_page. destruct (Z.ltb_spec c PAGE_SIZE).
  - apply (parse_chain _ _ _ _ c); [by apply chain_insert|done| |lia].
    intros _. by rewrite lookup_insert_eq.
  - apply (parse_chain _ _ _ _ c); [done|done|lia|lia].
Qed.

Lemma read_pages_app l1 l2 r1 r2 :
  read_pages l1 = Some r1 → read_pages l2 = Some r2 →
  read_pages (l1 ++ l2) = Some (r1 ++ r2).
Proof.
  revert r1. induction l1 as [|pg l1 IH]; intros r1; cbn [read_pages app].
  - by intros [= <-].
  - destruct (read_page pg) as [r|]; [|done].
    destruct (read_pages l1) as [rs|]; [|done].
    intros [= <-] H2. rewrite (IH rs eq_refl H2). by rewrite app_assoc.
Qed.

Lemma flushed_app t1 t2 : flushed (t1 ++ t2) = flushed t1 ++ flushed t2.
Proof.
  induction t1 as [|ev t1 IH]; [done|].
  destruct ev; cbn [app flushed]; by rewrite ?IH.
Qed.

Lemma run_cons_Ret c e cs s r s1 o1 rs s2 o2 :
  exec c e s = Ret r s1 o1 → run cs s1 = Ret rs s2 o2 →
  run ((c, e) :: cs) s = Ret (r :: rs) s2 (o1 ++ o2).
Proof.
  intros H1 H2. cbn [run]. unfold mbind, M_bind, mret, M_ret.
  rewrite H1. cbn [after]. rewrite H2. cbn [after]. by rewrite app_nil_r.
Qed.

(** One allocation with a kernel that grants the file and the page: where
    the message goes and which page, if any, is sealed on the way. *)
Lemma alloc_step e s size type :
  0 < size ≤ PAGE_SIZE → file_inv s → 0 ≤ offset s ≤ PAGE_SIZE →
  (log_page s = None → offset s = 0) →
  open_ok e = true → wb_status e = 0 →
  match iscsi_logger_alloc e size type s with
  | Ret (Some a) s1 o =>
      file_inv s1 ∧
      iscsi_logger_commit s1 = Ret () s1 [KunmapAtomic (Kaddr (poffset s1))] ∧
      offset s1 = a + MSG_RND_UP size ∧ a + MSG_RND_UP size ≤ PAGE_SIZE ∧
      match log_page s with
      | Some pg =>
          if offset s + MSG_RND_UP size <=? PAGE_SIZE then
            a = offset s ∧ (flushed o).*1 = [] ∧
            log_page s1 =
              Some (<[a := MsgHdr (MSG_RND_UP size) (u8 type)]> pg)
          else
            a = 0 ∧
            (flushed o).*1 = [if offset s <? PAGE_SIZE
                              then <[offset s := Terminator]> pg else pg] ∧
            log_page s1 =
              Some (<[0 := MsgHdr (MSG_RND_UP size) (u8 type)]> ∅)
      | None =>
          a = 0 ∧ (flushed o).*1 = [] ∧
          log_page s1 = Some (<[0 := MsgHdr (MSG_RND_UP size) (u8 type)]> ∅)
      end
  | _ => False
  end.
Proof.
  intros Hsize.
  pose proof (MSG_RND_UP_le_page size ltac:(lia)) as Hle.
  assert (PAGE_SIZE = 4096) as HP by reflexivity.
  pose proof (MSG_RND_UP_range size) as Hn.
  destruct s as [lk pd sd bf mx gen lf lp po off pa fsd lfn],
    e as [secs ook wbs wbf wes].
  unfold file_inv. mred.
  set (n := MSG_RND_UP size) in *. clearbody n.
  intros [Hp Hnofile] Hoff Hroom -> ->.
  assert (s64 (0 + n) = n) as Hs0 by (apply s64_small; lia).
  assert (s64 (off + n) = off + n) as Hs by (apply s64_small; lia).
  assert (u64 (off + n) = off + n) as Hu by (apply u64_small; lia).
  assert (u64 off = off) as Hu' by (apply u64_small; lia).
  mcr; rewrite ?Hu, ?Hu', ?Hs, ?Hs0 in *; ztests; u64_ranges; simplify_eq;
    try lia.
  all: try (exfalso; destruct Hnofile as [? _]; [done|discriminate]).
  all: try specialize (Hroom eq_refl); subst.
  all: rewrite ?Hs0.
  all: repeat match goal with
         | |- context [?a <=? ?b] => destruct (Z.leb_spec a b); try lia
         | |- context [?a <? ?b] => destruct (Z.ltb_spec a b); try lia
         end.
  all: repeat split; try done; try lia.
  all: try (intros Hx; by destruct Hnofile as [? _]).
  all: exfalso; destruct Hnofile as [? _]; [done|discriminate].
Qed.

Lemma log_calls_read e e' ms :
  open_ok e = true → wb_status e = 0 →
  Forall (λ m, 0 < m.1 ≤ PAGE_SIZE) ms →
  ∀ s rs,
    file_inv s → 0 ≤ offset s ≤ PAGE_SIZE →
    match log_page s with
    | Some pg => chain pg 0 rs (offset s)
    | None => rs = [] ∧ offset s = 0
    end →
    ∃ rsl s' o,
      run (log_calls e ms ++ [(Stop, e')]) s = Ret rsl s' o ∧
      read_pages (flushed o).*1 = Some (rs ++ (as_stored <$> ms)).
Proof.
  intros Hopen Hwb Hms. induction Hms as [|[size type] ms Hm Hms IH];
    intros s rs Hinv Hoff Hpg.
  - cbn [log_calls mbind list_bind app fmap list_fmap]. rewrite app_nil_r.
    pose proof (stop_seals_and_unlocks_aux e' s Hinv
                  ltac:(rewrite PAGE_SIZE_val in Hoff; lia)) as H.
    destruct (iscsi_logger_stop e' s) as [[] s' o|f s' o|s' o] eqn:Hs;
      [|done|done].
    destruct H as (_ & _ & _ & _ & _ & _ & _ & Hfl).
    exists [Void], s', (o ++ []). split.
    + apply (run_cons_Ret Stop e' [] s Void s' o [] s' []); [|done].
      cbn [exec]. unfold mbind, M_bind, mret, M_ret. rewrite Hs.
      cbn [after]. by rewrite app_nil_r.
    + rewrite app_nil_r, Hfl. destruct (log_page s) as [pg|].
      * cbn [fmap list_fmap read_pages].
        rewrite (read_sealed pg rs (offset s)) by (done || lia).
        by rewrite app_nil_r.
      * by destruct Hpg as [-> _].
  - cbn [fst] in Hm.
    assert (log_page s = None → offset s = 0) as Hroom.
    { intros E. rewrite E in Hpg. by destruct Hpg. }
    pose proof (alloc_step e s size type Hm Hinv Hoff Hroom Hopen Hwb) as Ha.
    destruct (iscsi_logger_alloc e size type s) as [[a|] s1 o1| |] eqn:Hal;
      try done.
    destruct Ha as (Hinv1 & Hcommit & Hoff1 & Hin & Hcase).
    pose proof (MSG_RND_UP_range size) as Hn.
    assert (size ≤ MSG_RND_UP size) as Hge.
    { apply MSG_RND_UP_spec. rewrite PAGE_SIZE_val in Hm. lia. }
    assert (0 ≤ a ∧
            ∃ r1 rs1, (match log_page s1 with
                       | Some pg => chain pg 0 rs1 (offset s1)
                       | None => rs1 = [] ∧ offset s1 = 0
                       end) ∧
                      read_pages (flushed o1).*1 = Some r1 ∧
                      r1 ++ rs1 = rs ++ [as_stored (size, type)])
      as (Ha0 & r1 & rs1 & Hch1 & Hr1 & Hrd).
    { destruct (log_page s) as [pg|].
      - destruct (Z.leb_spec (offset s + MSG_RND_UP size) PAGE_SIZE).
        + destruct Hcase as (-> & -> & ->). split; [lia|].
          exists [], (rs ++ [as_stored (size, type)]).
          split; [|done].
          rewrite Hoff1. apply chain_snoc; [done|lia].
        + destruct Hcase as (-> & -> & ->). split; [done|].
          exists rs, [as_stored (size, type)]. split; [|split; [|done]].
          * rewrite Hoff1. apply (chain_snoc ∅ 0 []); [done|lia].
          * cbn [read_pages].
            rewrite (read_sealed pg rs (offset s)) by (done || lia).
            by rewrite app_nil_r.
      - destruct Hcase as (-> & -> & ->). destruct Hpg as [-> _].
        split; [done|]. exists [], [as_stored (size, type)].
        split; [|done].
        rewrite Hoff1. apply (chain_snoc ∅ 0 []); [done|lia]. }
    destruct (IH s1 rs1 Hinv1 ltac:(lia) Hch1) as (rsl & s' & o & Hrun & Hread).
    exists (Msg (Some a) :: Void :: rsl), s',
      (o1 ++ [KunmapAtomic (Kaddr (poffset s1))] ++ o).
    split.
    + apply (run_cons_Ret (Alloc size type) e
               ((Commit, e) :: log_calls e ms ++ [(Stop, e')]) s
               (Msg (Some a)) s1 o1 (Void :: rsl) s'
               ([KunmapAtomic (Kaddr (poffset s1))] ++ o)).
      { cbn [exec]. unfold mbind, M_bind, mret, M_ret. rewrite Hal.
        cbn [after]. by rewrite app_nil_r. }
      apply (run_cons_Ret Commit e (log_calls e ms ++ [(Stop, e')]) s1
               Void s1 [KunmapAtomic (Kaddr (poffset s1))] rsl s' o);
        [|exact Hrun].
      cbn [exec]. unfold mbind, M_bind, mret, M_ret. by rewrite Hcommit.
    + rewrite flushed_app.
      change (flushed ([KunmapAtomic (Kaddr (poffset s1))] ++ o))
        with (flushed o).
      rewrite fmap_app, (read_pages_app _ _ _ _ Hr1 Hread), fmap_cons.
      f_equal. rewrite app_assoc, Hrd, <- app_assoc. done.
Qed.

(** X13: what is logged can be read back.  The logger is in a state whose
    cursor is in the page, with no page open and the cursor at 0, or with a
    page open that holds messages [rs] laid end to end up to the cursor; the
    kernel grants files and pages.  Messages of positive size that each fit
    a page are allocated and committed one after the other and the session
    is stopped.  Then every page handed to [pagecache_write_end] can be
    read from offset 0 by its headers up to the terminator or the end of
    the page, and the pages give back, in order, [rs] followed by exactly
    these messages with their sizes rounded, whatever the number of pages
    and files they were spread over.  The terminator is needed for it: a
    page that is not full and has none cannot be read. *)
Theorem messages_read_back e e' ms s rs :
  open_ok e = true → wb_status e = 0 →
  Forall (λ m, 0 < m.1 ≤ PAGE_SIZE) ms →
  file_inv s → 0 ≤ offset s ≤ PAGE_SIZE →
  match log_page s with
  | Some pg => chain pg 0 rs (offset s)
  | None => rs = [] ∧ offset s = 0
  end →
  (∃ rsl s' o,
     run (log_calls e ms ++ [(Stop, e')]) s = Ret rsl s' o ∧
     read_pages (flushed o).*1 = Some (rs ++ (as_stored <$> ms))) ∧
  (∀ pg, log_page s = Some pg → offset s < PAGE_SIZE → pg !! offset s = None →
         read_page pg = None).
Proof.
  intros Hopen Hwb Hms Hinv Hoff Hpg. split.
  - by apply (log_calls_read e e' ms Hopen Hwb Hms s rs).
  - intros pg E Hlt Hnone. rewrite E in Hpg.
    by apply (parse_open_chain _ _ _ rs (offset s)).
Qed.

Lemma messages_read_back_witness :
  (∃ rsl s' o,
     run (log_calls k [(90, 7); (200, 7); (8, 1)] ++ [(Stop, no_flush 7)])
       one_message = Ret rsl s' o ∧
     read_pages (flushed o).*1 =
       Some ([(4000, 7)] ++ (as_stored <$> [(90, 7); (200, 7); (8, 1)]))) ∧
  (∀ pg, log_page one_message = Some pg → offset one_message < PAGE_SIZE →
         pg !! offset one_message = None → read_page pg = None).
Proof.
  apply (messages_read_back k (no_flush 7) [(90, 7); (200, 7); (8, 1)]
           one_message [(4000, 7)]).
  - reflexivity.
  - reflexivity.
  - repeat constructor; vm_compute; discriminate.
  - vm_compute. split; [discriminate|intros; discriminate].
  - vm_compute. split; discriminate.
  - change (log_page one_message)
      with (Some (<[0 := MsgHdr 4000 7]> (∅ : page))).
    cbn [chain]. split; [by rewrite lookup_insert_eq|]. split; [done|].
    reflexivity.
Defined.

(** ** The self-test *)

Lemma outstanding_app t1 t2 :
  outstanding (t1 ++ t2) = outstanding t1 + outstanding t2.
Proof.
  induction t1 as [|ev t1 IH]; [done|].
  destruct ev; cbn [app outstanding]; lia.
Qed.

(** An allocation in a session: it returns, keeps the mutex as it is, and
    leaves one mapping for the commit exactly when it hands out a
    message. *)
Lemma alloc_in_session e s size type :
  MSG_RND_UP size ≤ PAGE_SIZE → file_inv s →
  match iscsi_logger_alloc e size type s with
  | Ret r s' o =>
      file_inv s' ∧ locked s' = locked s ∧
      match r with
      | Some _ =>
          outstanding o = 1 ∧
          iscsi_logger_commit s' = Ret () s' [KunmapAtomic (Kaddr (poffset s'))]
      | None => outstanding o = 0
      end
  | _ => False
  end.
Proof.
  destruct s as [lk pd sd bf mx gen lf lp po off pa fsd lfn],
    e as [secs ook wbs wbf wes].
  unfold file_inv. mred. intros Hle [Hp Hnofile]. apply Z.ltb_ge in Hle.
  rewrite Hle.
  mcr; ztests; u64_ranges; simplify_eq.
  all: try (exfalso; destruct Hnofile as [? _]; [done|discriminate]).
  all: try (destruct ook; simplify_eq).
  all: cbn [outstanding].
  all: repeat split; try done; try lia.
  all: try (intros Hx; exfalso; by destruct Hnofile as [? _]).
  all: destruct Hnofile as (? & ? & ?); [done|]; by simplify_eq.
Qed.

Lemma test_loop_returns msg_size raw ei n :
  (∀ sz, 10 ≤ sz ≤ 1033 → MSG_RND_UP (msg_size sz) ≤ PAGE_SIZE) →
  ∀ i s, 0 ≤ i → i + Z.of_nat n ≤ 1000000 → file_inv s →
    ∃ s' o,
      iscsi_logger_test_loop msg_size raw ei n i s = Ret () s' o ∧
      file_inv s' ∧ locked s' = locked s ∧ outstanding o = 0.
Proof.
  intros Hsz. induction n as [|n IH]; intros i s Hi Hn Hinv.
  - by exists s, [].
  - cbn [iscsi_logger_test_loop]. cbv zeta.
    assert (s32 (i `rem` 1024 + 10) = i `rem` 1024 + 10 ∧
            10 ≤ i `rem` 1024 + 10 ≤ 1033) as [-> Hrange].
    { pose proof (Z.rem_bound_pos i 1024 Hi ltac:(lia)).
      split; [apply s32_small|]; lia. }
    pose proof (alloc_in_session (ei i) s (msg_size (i `rem` 1024 + 10)) raw
                  (Hsz _ Hrange) Hinv) as Ha.
    unfold mbind at 1, M_bind at 1.
    destruct (iscsi_logger_alloc (ei i) (msg_size (i `rem` 1024 + 10)) raw s)
      as [[a|] s1 o1| |]; try done.
    + destruct Ha as (Hinv1 & Hl1 & Ho1 & Hc).
      destruct (IH (s32 (i + 1)) s1) as (s' & o & Hrun & Hinv' & Hl' & Ho').
      { rewrite s32_small; lia. }
      { rewrite s32_small; lia. }
      { done. }
      unfold mbind, M_bind. rewrite Hc. cbn [after]. rewrite Hrun.
      cbn [after]. eexists _, _. split; [reflexivity|].
      split; [done|]. split; [congruence|].
      rewrite !(outstanding_app). cbn [outstanding]. lia.
    + destruct Ha as (Hinv1 & Hl1 & Ho1).
      cbn [after mret M_ret]. eexists _, _. split; [reflexivity|].
      split; [done|]. split; [done|]. by rewrite app_nil_r.
Qed.

Lemma roll_then_stop e1 e2 s :
  file_inv s →
  match (iscsi_logger_roll e1;; iscsi_logger_stop e2) s with
  | Ret _ s' o =>
      locked s' = false ∧ log_file s' = None ∧ log_page s' = None ∧
      poffset s' = 0 ∧ offset s' = 0 ∧ outstanding o = 0
  | _ => False
  end.
Proof.
  destruct s as [lk pd sd bf mx gen lf lp po off pa fsd lfn],
    e1 as [secs ook wbs wbf wes], e2 as [secs' ook' wbs' wbf' wes'].
  unfold file_inv. mred. intros [Hp Hnofile].
  mcr; simplify_eq.
  all: try (exfalso; destruct Hnofile as [? _]; [done|discriminate]).
  all: cbn [outstanding]; repeat split; try done.
  all: destruct Hnofile as (? & ? & ?); [done|]; by simplify_eq.
Qed.

Lemma self_test_idle_aux msg_size raw e0 ei e1 e2 s :
  (∀ sz, 10 ≤ sz ≤ 1033 → MSG_RND_UP (msg_size sz) ≤ PAGE_SIZE) →
  file_inv s → locked s = false →
  ∃ s' o,
    iscsi_logger_test msg_size raw e0 ei e1 e2 s = Ret () s' o ∧
    locked s' = false ∧ log_file s' = None ∧ log_page s' = None ∧
    poffset s' = 0 ∧ offset s' = 0 ∧ outstanding o = 0.
Proof.
  intros Hsz Hinv Hl. unfold iscsi_logger_test.
  pose proof (start_aux e0 s Hinv Hl) as Hs.
  destruct (exec_file_inv Start e0 s Hinv) as [Hinv0 _].
  cbn [exec] in Hinv0. unfold mbind at 1, M_bind at 1 in Hinv0.
  unfold mbind at 1, M_bind at 1.
  destruct (iscsi_logger_start e0 s) as [[] s0 o0| |]; [|done|done].
  cbn [final after mret M_ret] in Hinv0.
  destruct Hs as (Hl0 & _ & Ho0 & _).
  destruct (test_loop_returns msg_size raw ei (Z.to_nat 1000000) Hsz 0 s0)
    as (s1 & o1 & Hloop & Hinv1 & Hl1 & Ho1); [lia|lia|done|].
  unfold mbind at 1, M_bind at 1. rewrite Hloop.
  pose proof (roll_then_stop e1 e2 s1 Hinv1) as Ht.
  destruct ((iscsi_logger_roll e1;; iscsi_logger_stop e2) s1)
    as [[] s' o| |]; [|done|done].
  destruct Ht as (? & ? & ? & ? & ? & Ho).
  cbn [after]. eexists _, _. split; [reflexivity|].
  repeat (split; [done|]). rewrite !outstanding_app. lia.
Qed.

(** X14: the self-test always comes to its end and leaves the logger idle.
    Provided the mutex is free and the sizes it asks for (payloads of 10 to
    1033 bytes) fit a page, [iscsi_logger_test] returns whatever the kernel
    answers, even if no file can be created or pages are refused (the loop
    then stops at the first NULL); it never meets a [BUG_ON]; afterwards
    the mutex is free, no file and no page is open, both positions are 0
    and every mapping made was undone. *)
Theorem self_test_leaves_logger_idle msg_size raw e0 ei e1 e2 s :
  (∀ sz, 10 ≤ sz ≤ 1033 → MSG_RND_UP (msg_size sz) ≤ PAGE_SIZE) →
  file_inv s → locked s = false →
  ∃ s' o,
    iscsi_logger_test msg_size raw e0 ei e1 e2 s = Ret () s' o ∧
    locked s' = false ∧ log_file s' = None ∧ log_page s' = None ∧
    poffset s' = 0 ∧ offset s' = 0 ∧ outstanding o = 0.
Proof. apply self_test_idle_aux. Qed.

Lemma self_test_leaves_logger_idle_witness :
  ∃ s' o,
    iscsi_logger_test (λ sz, 8 + sz) 0 k (λ _, no_page 7) k k booted =
      Ret () s' o ∧
    locked s' = false ∧ log_file s' = None ∧ log_page s' = None ∧
    poffset s' = 0 ∧ offset s' = 0 ∧ outstanding o = 0.
Proof.
  apply (self_test_leaves_logger_idle (λ sz, 8 + sz) 0 k (λ _, no_page 7) k k
           booted).
  - intros sz Hsz. apply MSG_RND_UP_le_page. rewrite PAGE_SIZE_val. lia.
  - vm_compute. split; [discriminate|intros; done].
  - reflexivity.
Defined.

(** ** The netlink front end: [nl_input] *)

(** X15: a message that is too short, or carries another version than
    [ISCSI_LOGGER_API_VER], is answered with [-EINVAL] and not pulled from
    the buffer; [nl_input] prints one error, does not take the mutex and
    leaves the statics as they are, whatever the type of the message. *)
Theorem nl_input_rejects abi msg_size raw e0 ei e1 e2 skb s :
  nlmsg_len skb < nl_min_len abi ∨ version skb ≠ ISCSI_LOGGER_API_VER abi →
  ∃ msg,
    nl_input abi msg_size raw e0 ei e1 e2 skb s =
      Ret (NlReply (-22) None) s [Printk KERN_ERR msg].
Proof.
  intros H. unfold nl_input.
  destruct (Z.ltb_spec (nlmsg_len skb) (nl_min_len abi)).
  - by eexists.
  - destruct H as [|H]; [lia|]. apply Z.eqb_neq in H. rewrite H.
    by eexists.
Qed.

Lemma nl_input_rejects_witness :
  ∃ msg,
    nl_input (NlAbi 64 1 1 2 256) (λ sz, 8 + sz) 0 k (λ _, k) k k
      (SkBuff 80 80 1 0 42 7 "/var/log" 8192) booted =
      Ret (NlReply (-22) None) booted [Printk KERN_ERR msg].
Proof.
  apply (nl_input_rejects (NlAbi 64 1 1 2 256) (λ sz, 8 + sz) 0 k (λ _, k) k k
           (SkBuff 80 80 1 0 42 7 "/var/log" 8192) booted).
  right. vm_compute. discriminate.
Defined.

(** X16: a well-formed message of a type that is neither
    [ISCSI_LOGGER_REGISTER] nor [ISCSI_LOGGER_TEST] changes nothing and is
    nevertheless acknowledged with 0, as a success, and pulled from the
    buffer; the only trace of it is an error in the kernel log. *)
Theorem nl_input_unknown_type abi msg_size raw e0 ei e1 e2 skb s :
  nl_min_len abi ≤ nlmsg_len skb →
  version skb = ISCSI_LOGGER_API_VER abi →
  nlmsg_type skb ≠ ISCSI_LOGGER_REGISTER abi →
  nlmsg_type skb ≠ ISCSI_LOGGER_TEST abi →
  ∃ m1 m2,
    nl_input abi msg_size raw e0 ei e1 e2 skb s =
      Ret (NlReply 0 (Some (nlmsg_len skb))) s
          [Printk KERN_INFO m1; Printk KERN_ERR m2].
Proof.
  intros Hlen Hver Hr Ht. unfold nl_input.
  apply Z.ltb_ge in Hlen. apply Z.eqb_eq in Hver.
  apply Z.eqb_neq in Hr. apply Z.eqb_neq in Ht.
  rewrite Hlen, Hver. cbn [negb]. unfold mbind, M_bind, printk, emit.
  rewrite Hr, Ht. by eexists _, _.
Qed.

Lemma nl_input_unknown_type_witness :
  ∃ m1 m2,
    nl_input (NlAbi 64 1 1 2 256) (λ sz, 8 + sz) 0 k (λ _, k) k k
      (SkBuff 80 80 9 0 42 1 "/var/log" 8192) booted =
      Ret (NlReply 0 (Some (nlmsg_len (SkBuff 80 80 9 0 42 1 "/var/log" 8192))))
          booted [Printk KERN_INFO m1; Printk KERN_ERR m2].
Proof.
  apply (nl_input_unknown_type (NlAbi 64 1 1 2 256) (λ sz, 8 + sz) 0 k (λ _, k) k k
           (SkBuff 80 80 9 0 42 1 "/var/log" 8192) booted).
  - vm_compute. discriminate.
  - reflexivity.
  - vm_compute. discriminate.
  - vm_compute. discriminate.
Defined.

(** X17: a well-formed message of one of the two known types, on a free
    mutex, is acknowledged with 0 and pulled.  A REGISTER message installs
    its directory, cut to [MAX_DIR_PATH - 1] characters, the sender's pid
    and the page limit of its size; a TEST message runs the self-test and
    leaves the logger idle. *)
Theorem nl_input_dispatches abi msg_size raw e0 ei e1 e2 skb s :
  nl_min_len abi ≤ nlmsg_len skb →
  version skb = ISCSI_LOGGER_API_VER abi →
  ISCSI_LOGGER_REGISTER abi ≠ ISCSI_LOGGER_TEST abi →
  (1 ≤ MAX_DIR_PATH abi)%nat →
  0 ≤ reg_max_size skb < 2 ^ 64 →
  (∀ sz, 10 ≤ sz ≤ 1033 → MSG_RND_UP (msg_size sz) ≤ PAGE_SIZE) →
  file_inv s → locked s = false →
  (nlmsg_type skb = ISCSI_LOGGER_REGISTER abi →
   ∃ o,
     nl_input abi msg_size raw e0 ei e1 e2 skb s =
       Ret (NlReply 0 (Some (nlmsg_len skb)))
           (set_max_file_size (reg_max_size skb / PAGE_SIZE)
              (set_pid (nlmsg_pid skb)
                 (set_staging_dir
                    (cut_dir (MAX_DIR_PATH abi) (reg_dir skb)) s)))
           o ∧
     (String.length (cut_dir (MAX_DIR_PATH abi) (reg_dir skb)) <
      MAX_DIR_PATH abi)%nat) ∧
  (nlmsg_type skb = ISCSI_LOGGER_TEST abi →
   ∃ s' o,
     nl_input abi msg_size raw e0 ei e1 e2 skb s =
       Ret (NlReply 0 (Some (nlmsg_len skb))) s' o ∧
     locked s' = false ∧ log_file s' = None ∧ log_page s' = None ∧
     poffset s' = 0 ∧ offset s' = 0).
Proof.
  intros Hlen Hver Hne Hdir Hmax Hsz Hinv Hl. unfold nl_input.
  apply Z.ltb_ge in Hlen. apply Z.eqb_eq in Hver.
  rewrite Hlen, Hver. cbn [negb].
  split; intros Hty; rewrite Hty.
  - rewrite Z.eqb_refl. unfold mbind, M_bind, printk, emit.
    destruct (register_dir_sets_limit_aux (MAX_DIR_PATH abi) (reg_dir skb)
                (nlmsg_pid skb) (reg_max_size skb) s Hmax Hl) as (msg & ->).
    cbn [after mret M_ret]. eexists. split; [reflexivity|].
    unfold cut_dir.
    pose proof (substring_length (MAX_DIR_PATH abi - 1) (reg_dir skb)). lia.
  - apply not_eq_sym, Z.eqb_neq in Hne. rewrite Hne, Z.eqb_refl.
    unfold nl_test, mbind, M_bind, printk, emit.
    destruct (self_test_idle_aux msg_size raw e0 ei e1 e2 s Hsz Hinv Hl)
      as (s' & o & -> & H).
    cbn [after mret M_ret]. eexists _, _. split; [reflexivity|].
    destruct H as (? & ? & ? & ? & ? & _). done.
Qed.

Lemma nl_input_dispatches_witness :
  (nlmsg_type (SkBuff 80 80 1 0 42 1 "/var/log/iscsi" 8192) =
     ISCSI_LOGGER_REGISTER (NlAbi 64 1 1 2 8) →
   ∃ o,
     nl_input (NlAbi 64 1 1 2 8) (λ sz, 8 + sz) 0 k (λ _, k) k k
       (SkBuff 80 80 1 0 42 1 "/var/log/iscsi" 8192) booted =
       Ret (NlReply 0 (Some 80))
           (set_max_file_size (8192 / PAGE_SIZE)
              (set_pid 42 (set_staging_dir "/var/lo" booted))) o ∧
     (String.length (cut_dir 8 "/var/log/iscsi") < 8)%nat) ∧
  (nlmsg_type (SkBuff 80 80 1 0 42 1 "/var/log/iscsi" 8192) =
     ISCSI_LOGGER_TEST (NlAbi 64 1 1 2 8) →
   ∃ s' o,
     nl_input (NlAbi 64 1 1 2 8) (λ sz, 8 + sz) 0 k (λ _, k) k k
       (SkBuff 80 80 1 0 42 1 "/var/log/iscsi" 8192) booted =
       Ret (NlReply 0 (Some 80)) s' o ∧
     locked s' = false ∧ log_file s' = None ∧ log_page s' = None ∧
     poffset s' = 0 ∧ offset s' = 0).
Proof.
  apply (nl_input_dispatches (NlAbi 64 1 1 2 8) (λ sz, 8 + sz) 0 k (λ _, k) k k
           (SkBuff 80 80 1 0 42 1 "/var/log/iscsi" 8192) booted).
  - vm_compute. discriminate.
  - reflexivity.
  - vm_compute. discriminate.
  - cbn [MAX_DIR_PATH]. lia.
  - cbn [reg_max_size]. lia.
  - intros sz Hsz. apply MSG_RND_UP_le_page. rewrite PAGE_SIZE_val. lia.
  - vm_compute. split; [discriminate|intros; done].
  - reflexivity.
Defined.

(** ** A session that continues the page of the last one *)

Lemma resume_aux e1 e2 e3 s f pg size type :
  log_file s = Some f → log_page s = Some pg →
  (poffset s <? max_file_size s) = true →
  wb_status e3 = 0 → (PAGE_SIZE <? MSG_RND_UP size) = false →
  match run [(Stop, e1); (Start, e2); (Alloc size type, e3)] s with
  | Ret rs s' o =>
      rs = [Void; Void; Msg (Some (offset s))] ∧
      log_file s' = Some f ∧ poffset s' = poffset s ∧
      log_page s' =
        Some (<[offset s := MsgHdr (MSG_RND_UP size) (u8 type)]> ∅) ∧
      offset s' = s64 (offset s + MSG_RND_UP size) ∧
      opens o = 0 ∧ closes o = 0 ∧ begins o = 1 ∧
      WriteBegin f (page_pos (poffset s)) 0 ∈ o ∧
      ∃ pg', flushed o = [(pg', we_status e1)] ∧
             WriteEnd f (page_pos (poffset s)) pg' (we_status e1) ∈ o ∧
             (u64 (offset s) < PAGE_SIZE → pg' !! offset s = Some Terminator)
  | _ => False
  end.
Proof.
  intros Hf Hp Hlt Hwb Hsz.
  destruct s as [lk pd sd bf mx gen lf lp po off pa fsd lfn],
           e1 as [secs1 ook1 wbs1 wbf1 wes1], e2 as [secs2 ook2 wbs2 wbf2 wes2],
           e3 as [secs3 ook3 wbs3 wbf3 wes3].
  cbn [log_file log_page poffset max_file_size wb_status offset] in *.
  subst lf lp wbs3. unfold run.
  mcr; try discriminate; try done.
  all: cbn [opens closes begins flushed]; ztests.
  all: repeat (split; [first [done|set_solver]|]).
  all: eexists; split; [reflexivity|]; split; [set_solver|].
  all: intros; first [lia|by simplify_map_eq].
Qed.

(** X18: a session continues the page of the session before it.  When a
    session is stopped with a page open in a file that is not full, the
    next start opens no file, and the first allocation of the new session
    begins a page at the very position of the page the stop has ended and
    puts its message at the cursor the old session left: no page of the
    file is skipped, the page given to the kernel is begun a second time,
    and the new message starts where the stop has stored the terminator. *)
Theorem next_session_resumes_page e1 e2 e3 s f pg size type :
  log_file s = Some f → log_page s = Some pg →
  poffset s < max_file_size s →
  wb_status e3 = 0 → MSG_RND_UP size ≤ PAGE_SIZE →
  ∃ s' o pg',
    run [(Stop, e1); (Start, e2); (Alloc size type, e3)] s =
      Ret [Void; Void; Msg (Some (offset s))] s' o ∧
    log_file s' = Some f ∧ poffset s' = poffset s ∧
    log_page s' =
      Some (<[offset s := MsgHdr (MSG_RND_UP size) (u8 type)]> ∅) ∧
    opens o = 0 ∧ closes o = 0 ∧ begins o = 1 ∧
    flushed o = [(pg', we_status e1)] ∧
    WriteEnd f (page_pos (poffset s)) pg' (we_status e1) ∈ o ∧
    WriteBegin f (page_pos (poffset s)) 0 ∈ o ∧
    (u64 (offset s) < PAGE_SIZE → pg' !! offset s = Some Terminator).
Proof.
  intros Hf Hp Hlt Hwb Hsz.
  apply Z.ltb_lt in Hlt. apply Z.ltb_ge in Hsz.
  pose proof (resume_aux e1 e2 e3 s f pg size type Hf Hp Hlt Hwb Hsz) as H.
  destruct (run _ s) as [rs s' o| |]; [|done..].
  destruct H as (-> & ? & ? & ? & _ & ? & ? & ? & ? & pg' & ? & ? & ?).
  by exists s', o, pg'.
Qed.

Lemma next_session_resumes_page_witness :
  ∃ s' o pg',
    run [(Stop, k); (Start, k); (Alloc 200 7, k)] one_message =
      Ret [Void; Void; Msg (Some (offset one_message))] s' o ∧
    log_file s' = Some "/dev/shm/1316000000.000" ∧
    poffset s' = poffset one_message ∧
    log_page s' =
      Some (<[offset one_message := MsgHdr (MSG_RND_UP 200) (u8 7)]> ∅) ∧
    opens o = 0 ∧ closes o = 0 ∧ begins o = 1 ∧
    flushed o = [(pg', we_status k)] ∧
    WriteEnd "/dev/shm/1316000000.000" (page_pos (poffset one_message)) pg'
      (we_status k) ∈ o ∧
    WriteBegin "/dev/shm/1316000000.000" (page_pos (poffset one_message)) 0
      ∈ o ∧
    (u64 (offset one_message) < PAGE_SIZE →
     pg' !! offset one_message = Some Terminator).
Proof.
  apply (next_session_resumes_page k k k one_message
           "/dev/shm/1316000000.000"
           (<[0 := MsgHdr 4000 7]> ∅) 200 7).
  - reflexivity.
  - reflexivity.
  - vm_compute. reflexivity.
  - reflexivity.
  - vm_compute. discriminate.
Defined.
